(** * Geiger counter firmware (geiger.c): shallow embedding and properties

    The firmware runs on an ATtiny2313.  Three interrupt handlers
    ([ISR_INT0], [ISR_INT1], [ISR_TIMER1_COMPA]) post to volatile globals,
    and the main loop drains them with [checkevent] and [sendreport].

    Modelling conventions.
    - Every volatile global and every I/O register is a location [loc];
      the machine keeps one unsigned value per location.  A store truncates
      to the width of the location (8, 16 or 64 bits), which is where the
      wrap-around of C's unsigned arithmetic is written out.
    - Each store to a location and each busy-wait delay is appended to an
      event trace, in program order, so that the order of side effects and
      the bytes handed to the UART data register can be stated.
    - [serbuf] is ordinary memory: a list of bytes with bounds-checked
      stores; an access outside the array is a fault ([None]).
    - An interrupt handler runs to completion, and the main loop takes
      interrupts between its routines; a handler preempting the middle of
      [checkevent] or [sendreport] is outside this model.  In particular
      the reporter's read of the 64-bit [count] is one load here, while on
      the device a detector interrupt can land between its byte loads;
      statements about whole runs are therefore limited to what does not
      depend on where inside a routine an interrupt lands.  The input pin
      read by the button handler is a parameter of that handler. *)

From Stdlib Require Import ZArith List Lia Bool Ascii String.
From stdpp Require Import base list.
From Equations Require Import Equations.
From Equations.Prop Require Import Logic.
Import ListNotations.
Local Open Scope Z_scope.

(** ** Locations, widths and device constants *)

Inductive loc : Type :=
  (* volatile globals of geiger.c *)
  | feedback_mode | count | eventflag | tick
  (* I/O registers written by the firmware *)
  | PORTB | PORTD | DDRB | DDRD | MCUCR | GIMSK | EIFR
  | TCCR0A | TCCR0B | OCR0A | TCCR1B | OCR1A | TIMSK
  | UBRRH | UBRRL | UCSRB | UDR.

Definition loc_eqb (a b : loc) : bool :=
  match a, b with
  | feedback_mode, feedback_mode | count, count | eventflag, eventflag
  | tick, tick | PORTB, PORTB | PORTD, PORTD | DDRB, DDRB | DDRD, DDRD
  | MCUCR, MCUCR | GIMSK, GIMSK | EIFR, EIFR | TCCR0A, TCCR0A
  | TCCR0B, TCCR0B | OCR0A, OCR0A | TCCR1B, TCCR1B | OCR1A, OCR1A
  | TIMSK, TIMSK | UBRRH, UBRRH | UBRRL, UBRRL | UCSRB, UCSRB
  | UDR, UDR => true
  | _, _ => false
  end.

(** [uint64_t count], the 16-bit compare register of Timer1, and 8 bits
    for everything else. *)
Definition width (l : loc) : Z :=
  match l with
  | count => 64
  | OCR1A => 16
  | _ => 8
  end.

Definition UINT64_MAX : Z := 2 ^ 64 - 1.

(* #define's of geiger.c *)
Definition F_CPU : Z := 8000000.
Definition BAUD : Z := 9600.
Definition SER_BUFF_LEN : Z := 17.
Definition PULSEWIDTH : Z := 100.

(* Bit numbers of the ATtiny2313 device header (avr/io.h). *)
Definition PB2 : Z := 2.
Definition PB4 : Z := 4.
Definition PD3 : Z := 3.
Definition PD6 : Z := 6.
Definition ISC01 : Z := 1.
Definition ISC11 : Z := 3.
Definition INT0 : Z := 6.
Definition INT1 : Z := 7.
Definition INTF1 : Z := 7.
Definition COM0A1 : Z := 7.
Definition COM0A0 : Z := 6.
Definition WGM02 : Z := 3.
Definition WGM01 : Z := 1.
Definition WGM00 : Z := 0.
Definition CS01 : Z := 1.
Definition WGM12 : Z := 3.
Definition CS12 : Z := 2.
Definition CS10 : Z := 0.
Definition OCIE1A : Z := 6.
Definition RXEN : Z := 4.
Definition TXEN : Z := 3.

(** [_BV(bit)] is [1 << bit]. *)
Definition _BV (bit : Z) : Z := Z.shiftl 1 bit.

(** ** Machine state *)

Inductive event : Type :=
  | EvStore (l : loc) (v : Z)      (* a store to a volatile location *)
  | EvDelay (us : Z).              (* a busy-wait of [us] microseconds *)

Record state : Type := mkState {
  mem : loc -> Z;
  serbuf : list Z;
  trace : list event
}.

Definition ld (l : loc) (s : state) : Z := mem s l.

Definition wrap (l : loc) (v : Z) : Z := v mod 2 ^ width l.

Definition store (l : loc) (v : Z) (s : state) : state :=
  {| mem := fun l' => if loc_eqb l l' then wrap l v else mem s l';
     serbuf := serbuf s;
     trace := trace s ++ [EvStore l (wrap l v)] |}.

Definition delay_us (us : Z) (s : state) : state :=
  {| mem := mem s; serbuf := serbuf s; trace := trace s ++ [EvDelay us] |}.

Definition delay_ms (ms : Z) (s : state) : state := delay_us (1000 * ms) s.

Definition set_serbuf (b : list Z) (s : state) : state :=
  {| mem := mem s; serbuf := b; trace := trace s |}.

(** ** Interrupt service routines *)

(** [ISR(INT0_vect)]: falling edge of a GM pulse. *)
Definition ISR_INT0 (s : state) : state :=
  let s := if ld count s <? UINT64_MAX
           then store count (ld count s + 1) s
           else s in
  let s := store PORTD (Z.lor (ld PORTD s) (_BV PD6)) s in
  let s := delay_us PULSEWIDTH s in
  let s := store PORTD (Z.land (ld PORTD s) (Z.lnot (_BV PD6))) s in
  store eventflag 1 s.

(** [ISR(INT1_vect)]: falling edge of the push button.  [pind t] is the
    value the input register PIND shows [t] microseconds after the handler
    was entered; the handler samples it once, after the 25 ms delay. *)
Definition ISR_INT1 (pind : Z -> Z) (s : state) : state :=
  let s := delay_ms 25 s in
  let s := if Z.land (pind 25000) (_BV PD3) =? 0
           then store feedback_mode (ld feedback_mode s + 1) s
           else s in
  store EIFR (Z.lor (ld EIFR s) (_BV INTF1)) s.

(** [ISR(TIMER1_COMPA_vect)]. *)
Definition ISR_TIMER1_COMPA (s : state) : state :=
  store tick 1 s.

(** ** Serial transmitter *)

(** [uart_putchar]: a newline is preceded by a carriage return, sent by a
    recursive call.  The busy-wait on the UDRE status bit changes no state
    of the program and is not represented; the byte written to UDR is the
    byte transmitted. *)
Equations? uart_putchar (c : Z) (s : state) : state
  by wf (if c =? 10 then 1%nat else 0%nat) lt :=
  uart_putchar c s with inspect (c =? 10) := {
    | exist _ true Hnl => store UDR c (uart_putchar 13 s)
    | exist _ false Hnl => store UDR c s }.
Proof. rewrite Hnl. simpl. lia. Qed.

(** [uart_putstring]: send bytes until the NUL.  Walking past the end of
    the array without meeting a NUL is a fault. *)
Fixpoint uart_putstring (buffer : list Z) (s : state) : option state :=
  match buffer with
  | [] => None
  | c :: rest =>
      if c =? 0 then Some s else uart_putstring rest (uart_putchar c s)
  end.

(** ** Feedback actuator *)

Definition checkevent (s : state) : state :=
  if negb (ld eventflag s =? 0) then
    let s := store eventflag 0 s in
    let s := if negb (Z.land (ld feedback_mode s) 1 =? 0)
             then store PORTB (Z.lor (ld PORTB s) (_BV PB4)) s
             else s in
    let s := if negb (Z.land (ld feedback_mode s) 2 =? 0)
             then
               let s := store TCCR0A (Z.lor (ld TCCR0A s) (_BV COM0A0)) s in
               let s := store TCCR0B (Z.lor (ld TCCR0B s) (_BV CS01)) s in
               store OCR0A 160 s
             else s in
    let s := delay_ms 10 s in
    let s := store PORTB (Z.land (ld PORTB s) (Z.lnot (_BV PB4))) s in
    let s := store TCCR0B 0 s in
    store TCCR0A (Z.land (ld TCCR0A s) (Z.lnot (_BV COM0A0))) s
  else s.

(** ** Hex encoder *)

(** [buf[i] = c] on an array of [length buf] chars. *)
Definition store_char (buf : list Z) (i : Z) (c : Z) : option (list Z) :=
  if (0 <=? i) && (i <? Z.of_nat (length buf))
  then Some (<[Z.to_nat i := c mod 256]> buf)
  else None.

(** The character stored for the low nibble of [x]. *)
Definition hexdigit (x : Z) : Z :=
  let d := (Z.land x 15) mod 256 in
  if d <? 10 then 48 + d else 65 + (d - 10).

(** The [for (; p >= buf; p--)] loop; [p] is the offset of the pointer
    from [buf]. *)
Equations? hexu64_loop (x : Z) (p : Z) (buf : list Z) : option (list Z)
  by wf (Z.to_nat (p + 1)) lt :=
  hexu64_loop x p buf with inspect (0 <=? p) := {
    | exist _ true Hge =>
        match store_char buf p (hexdigit x) with
        | Some buf' => hexu64_loop (Z.shiftr x 4) (p - 1) buf'
        | None => None
        end
    | exist _ false Hge => Some buf }.
Proof. apply Z.leb_le in Hge. lia. Qed.

Definition hexu64 (x : Z) (buf : list Z) : option (list Z) :=
  let p := 15 in
  match store_char buf 16 0 with
  | Some buf => hexu64_loop x p buf
  | None => None
  end.

(** ** Reporter *)

Definition sendreport (s : state) : option state :=
  if negb (ld tick s =? 0) then
    let s := store tick 0 s in
    match hexu64 (ld count s) (serbuf s) with
    | None => None
    | Some buf =>
        let s := set_serbuf buf s in
        match uart_putstring (serbuf s) s with
        | None => None
        | Some s => Some (uart_putchar 10 s)
        end
    end
  else Some s.

(** ** Startup *)

(** State at reset: globals are zero-initialised, the registers the
    firmware uses read zero, nothing has happened yet. *)
Definition power_on : state :=
  {| mem := fun _ => 0; serbuf := repeat 0 (Z.to_nat SER_BUFF_LEN); trace := [] |}.

(** The straight-line part of [main], up to [sei()]. *)
Definition main_init (s : state) : state :=
  let s := store UBRRH (Z.shiftr ((F_CPU / (16 * BAUD) - 1) mod 256) 8) s in
  let s := store UBRRL (F_CPU / (16 * BAUD) - 1) s in
  let s := store UCSRB (Z.lor (Z.shiftl 1 RXEN) (Z.shiftl 1 TXEN)) s in
  let s := store DDRB (Z.lor (_BV PB4) (_BV PB2)) s in
  let s := store DDRD (_BV PD6) s in
  let s := store PORTD (Z.lor (ld PORTD s) (_BV PD3)) s in
  let s := store MCUCR (Z.lor (ld MCUCR s) (Z.lor (_BV ISC01) (_BV ISC11))) s in
  let s := store GIMSK (Z.lor (ld GIMSK s) (Z.lor (_BV INT0) (_BV INT1))) s in
  let s := store TCCR0A
             (Z.lor (Z.lor (Z.lor (Z.lor (Z.shiftl 0 COM0A1) (Z.shiftl 1 COM0A0))
                                  (Z.shiftl 0 WGM02))
                           (Z.shiftl 1 WGM01))
                    (Z.shiftl 0 WGM00)) s in
  let s := store TCCR0B 0 s in
  let s := store TCCR1B (Z.lor (Z.lor (_BV WGM12) (_BV CS12)) (_BV CS10)) s in
  let s := store OCR1A 65535 s in
  let s := store TIMSK (_BV OCIE1A) s in
  let s := store feedback_mode 0 s in
  store count 0 s.

Definition init_state : state := main_init power_on.

(** Timer1 clock-select decoding of the device (bits CS12:CS10 of TCCR1B):
    the division factor applied to the CPU clock, [None] when the timer is
    stopped or externally clocked. *)
Definition timer1_prescaler (tccr1b : Z) : option Z :=
  match Z.land tccr1b 7 with
  | 1 => Some 1
  | 2 => Some 8
  | 3 => Some 64
  | 4 => Some 256
  | 5 => Some 1024
  | _ => None
  end.

(** Nanoseconds per Timer1 count, and per compare-match period.  In CTC
    mode the counter runs 0 .. OCR1A, that is OCR1A + 1 counts. *)
Definition timer1_count_ns (s : state) : option Z :=
  match timer1_prescaler (ld TCCR1B s) with
  | Some n => Some (n * 1000000000 / F_CPU)
  | None => None
  end.

Definition tick_period_ns (s : state) : option Z :=
  match timer1_count_ns s with
  | Some c => Some ((ld OCR1A s + 1) * c)
  | None => None
  end.

(** ** Main loop *)

Inductive irq : Type :=
  | IrqINT0
  | IrqINT1 (pind : Z -> Z)
  | IrqTIMER1.

Definition run_isr (i : irq) (s : state) : state :=
  match i with
  | IrqINT0 => ISR_INT0 s
  | IrqINT1 pind => ISR_INT1 pind s
  | IrqTIMER1 => ISR_TIMER1_COMPA s
  end.

(** Program points of the [while(1)] body. *)
Inductive pc : Type :=
  | AtSleepEnter      (* set_sleep_mode; sleep_enable; about to sleep *)
  | Sleeping          (* inside sleep_cpu *)
  | AtCheck1          (* sleep_disable done, first checkevent next *)
  | AtReport          (* sendreport next *)
  | AtCheck2.         (* second checkevent next *)

Inductive routine : Type := Rsleep_cpu | Rcheckevent | Rsendreport.

Inductive label : Type :=
  | LIrq (i : irq)
  | LCall (r : routine).

Definition config : Type := pc * state.

(** One step of the machine: the program executes its next statement, or
    an interrupt handler runs to completion.  Handlers are taken between
    the routines of the loop body; an interrupt during [sleep_cpu] wakes
    the core. *)
Inductive step : config -> label -> config -> Prop :=
  | step_sleep s :
      step (AtSleepEnter, s) (LCall Rsleep_cpu) (Sleeping, s)
  | step_wake i s :
      step (Sleeping, s) (LIrq i) (AtCheck1, run_isr i s)
  | step_check1 s :
      step (AtCheck1, s) (LCall Rcheckevent) (AtReport, checkevent s)
  | step_report s s' :
      sendreport s = Some s' ->
      step (AtReport, s) (LCall Rsendreport) (AtCheck2, s')
  | step_check2 s :
      step (AtCheck2, s) (LCall Rcheckevent) (AtSleepEnter, checkevent s)
  | step_irq p i s :
      p <> Sleeping ->
      step (p, s) (LIrq i) (p, run_isr i s).

Inductive exec : config -> list label -> config -> Prop :=
  | exec_nil c : exec c [] c
  | exec_cons c l c' ls c'' :
      step c l c' -> exec c' ls c'' -> exec c (l :: ls) c''.


(** ** Vocabulary of the specification *)

(** Values held by the machine fit their locations, and [serbuf] has its
    declared size. *)
Definition wf_state (s : state) : Prop :=
  length (serbuf s) = Z.to_nat SER_BUFF_LEN /\
  forall l, 0 <= ld l s < 2 ^ width l.

(** The bytes of a string literal. *)
Definition chars (str : string) : list Z :=
  map (fun a => Z.of_N (N_of_ascii a)) (list_ascii_of_string str).

(** ['0'..'9'] or ['A'..'F']. *)
Definition is_hex_upper (c : Z) : bool :=
  ((48 <=? c) && (c <=? 57)) || ((65 <=? c) && (c <=? 70)).

(** Reading a text back as a base-16 numeral. *)
Definition hexval (c : Z) : option Z :=
  if (48 <=? c) && (c <=? 57) then Some (c - 48)
  else if (65 <=? c) && (c <=? 70) then Some (c - 55)
  else None.

Definition parse_hex (cs : list Z) : option Z :=
  fold_left
    (fun acc c =>
       match acc, hexval c with
       | Some a, Some d => Some (16 * a + d)
       | _, _ => None
       end)
    cs (Some 0).

(** The [n] low hex digits of [x], most significant first, as [hexu64]
    lays them out. *)
Fixpoint hex_digits (n : nat) (x : Z) : list Z :=
  match n with
  | O => []
  | S n => hex_digits n (Z.shiftr x 4) ++ [hexdigit x]
  end.

(** Runs of the digit loop of [hexu64], counted by iterations: the state
    is (x, p, buf), the loop exits when [p >= buf] fails. *)
Inductive hexu64_iter : nat -> Z * Z * list Z -> Z * Z * list Z -> Prop :=
  | hexu64_iter_exit x p buf :
      (0 <=? p) = false ->
      hexu64_iter O (x, p, buf) (x, p, buf)
  | hexu64_iter_body n x p buf buf' st :
      (0 <=? p) = true ->
      store_char buf p (hexdigit x) = Some buf' ->
      hexu64_iter n (Z.shiftr x 4, p - 1, buf') st ->
      hexu64_iter (S n) (x, p, buf) st.

(** The bytes written to the UART data register, in order. *)
Fixpoint uart_tx (tr : list event) : list Z :=
  match tr with
  | [] => []
  | EvStore UDR v :: tr => v :: uart_tx tr
  | _ :: tr => uart_tx tr
  end.

(** Handing a run of bytes to the UART data register one after another. *)
Definition send_all (cs : list Z) (s : state) : state :=
  fold_left (fun s c => store UDR c s) cs s.



(** ** Vocabulary for whole runs *)

(** What one call of [uart_putchar] puts on the wire. *)
Definition tx_of_char (c : Z) : list Z :=
  if c =? 10 then [13; 10] else [c].

Definition expand_newlines (cs : list Z) : list Z := flat_map tx_of_char cs.

(** One report as it appears on the serial line. *)
Definition report_line (v : Z) : list Z := hex_digits 16 v ++ [13; 10].

(** Interrupts of an execution, by kind.  A button interrupt counts as a
    press when the pin still reads low at the handler's sample. *)
Fixpoint count_INT0 (ls : list label) : nat :=
  match ls with
  | [] => 0
  | LIrq IrqINT0 :: ls => S (count_INT0 ls)
  | _ :: ls => count_INT0 ls
  end.

Fixpoint count_presses (ls : list label) : nat :=
  match ls with
  | [] => 0
  | LIrq (IrqINT1 pind) :: ls =>
      if Z.testbit (pind 25000) PD3 then count_presses ls
      else S (count_presses ls)
  | _ :: ls => count_presses ls
  end.

Fixpoint count_ticks (ls : list label) : nat :=
  match ls with
  | [] => 0
  | LIrq IrqTIMER1 :: ls => S (count_ticks ls)
  | _ :: ls => count_ticks ls
  end.

(** Outputs at rest: LED off, Timer0 stopped, PULSE low, and the pull-up
    of the button pin still enabled. *)
Definition outputs_idle (s : state) : Prop :=
  Z.testbit (ld PORTB s) PB4 = false /\
  ld TCCR0B s = 0 /\
  Z.testbit (ld PORTD s) PD6 = false /\
  Z.testbit (ld PORTD s) PD3 = true.

(** Events of a trace that raise the PULSE output, and events that start a
    feedback cycle (the actuator taking the event flag). *)
Definition is_pulse_high (e : event) : bool :=
  match e with
  | EvStore PORTD v => Z.testbit v PD6
  | _ => false
  end.

Definition is_feedback_start (e : event) : bool :=
  match e with
  | EvStore eventflag v => v =? 0
  | _ => false
  end.

Definition count_events (p : event -> bool) (tr : list event) : nat :=
  length (List.filter p tr).



(** * Properties *)

(** ** Loads and stores *)

Lemma loc_eqb_eq (a b : loc) : loc_eqb a b = true <-> a = b.
Proof. split; [destruct a, b; simpl; congruence | intros ->; destruct b; reflexivity]. Qed.

Lemma loc_eqb_refl (l : loc) : loc_eqb l l = true.
Proof. apply loc_eqb_eq; reflexivity. Qed.

Lemma loc_eqb_neq (a b : loc) : a <> b -> loc_eqb a b = false.
Proof.
  intros Hne. destruct (loc_eqb a b) eqn:E; [|reflexivity].
  apply loc_eqb_eq in E. contradiction.
Qed.

Lemma ld_store_same l v s : ld l (store l v s) = wrap l v.
Proof. unfold ld, store; simpl. rewrite loc_eqb_refl. reflexivity. Qed.

Lemma ld_store_other l l' v s : l <> l' -> ld l' (store l v s) = ld l' s.
Proof. intros Hne. unfold ld, store; simpl. rewrite loc_eqb_neq; auto. Qed.

Ltac st_simpl :=
  cbn [ld store mem trace serbuf loc_eqb delay_ms delay_us set_serbuf] in *.

(** ** Event capture *)

Lemma ISR_INT0_count s :
  ld count (ISR_INT0 s) =
  if ld count s <? UINT64_MAX then (ld count s + 1) mod 2 ^ 64 else ld count s.
Proof.
  unfold ISR_INT0. destruct (ld count s <? UINT64_MAX); st_simpl; reflexivity.
Qed.

Lemma pulses_count_from n s :
  0 <= ld count s <= UINT64_MAX ->
  ld count (Nat.iter n ISR_INT0 s) = Z.min (ld count s + Z.of_nat n) UINT64_MAX.
Proof.
  intros Hr. induction n as [|n IH].
  - simpl. lia.
  - rewrite Nat.iter_succ, ISR_INT0_count, IH.
    unfold UINT64_MAX in *.
    destruct (Z.ltb_spec (Z.min (ld count s + Z.of_nat n) (2 ^ 64 - 1)) (2 ^ 64 - 1)).
    + rewrite Z.mod_small by lia. lia.
    + lia.
Qed.

Lemma init_count : ld count init_state = 0.
Proof. reflexivity. Qed.

(** C1. After [n] detector pulses from the initial state the event
    counter is [n] as long as [n] does not exceed UINT64_MAX, and
    UINT64_MAX for every larger [n]: it saturates and never wraps. *)
Theorem C1_count_saturates (n : nat) :
  ld count (Nat.iter n ISR_INT0 init_state) =
  if Z.of_nat n <=? UINT64_MAX then Z.of_nat n else UINT64_MAX.
Proof.
  rewrite pulses_count_from by (rewrite init_count; unfold UINT64_MAX; lia).
  rewrite init_count. destruct (Z.leb_spec (Z.of_nat n) UINT64_MAX); lia.
Qed.

(** ** Tick generator *)

(** C6. The timer handler sets [tick] and leaves every other location,
    the serial buffer included, as it was. *)
Theorem C6_tick_isr_frame (s : state) :
  ld tick (ISR_TIMER1_COMPA s) = 1 /\
  ld count (ISR_TIMER1_COMPA s) = ld count s /\
  ld eventflag (ISR_TIMER1_COMPA s) = ld eventflag s /\
  ld feedback_mode (ISR_TIMER1_COMPA s) = ld feedback_mode s /\
  serbuf (ISR_TIMER1_COMPA s) = serbuf s /\
  (forall l, l <> tick -> ld l (ISR_TIMER1_COMPA s) = ld l s) /\
  trace (ISR_TIMER1_COMPA s) = trace s ++ [EvStore tick 1].
Proof.
  unfold ISR_TIMER1_COMPA. repeat split; try reflexivity.
  intros l Hl. apply ld_store_other. congruence.
Qed.

Lemma C6_tick_isr_frame_witness :
  ld tick (ISR_TIMER1_COMPA (ISR_INT0 init_state)) = 1 /\
  ld PORTD (ISR_TIMER1_COMPA (ISR_INT0 init_state)) = ld PORTD (ISR_INT0 init_state).
Proof.
  destruct (C6_tick_isr_frame (ISR_INT0 init_state)) as (Ht & _ & _ & _ & _ & Hframe & _).
  split; [exact Ht|]. apply Hframe. discriminate.
Defined.

(** C7. With the constants [main] programs, Timer1 counts every 128 us
    (8 MHz / 1024) and the compare match comes every 65536 counts, that is
    every 8.388608 s: about 8.4 s and not one second. *)
Theorem C7_tick_period :
  F_CPU = 8000000 /\
  timer1_prescaler (ld TCCR1B init_state) = Some 1024 /\
  timer1_count_ns init_state = Some (128 * 1000) /\
  ld OCR1A init_state = 65535 /\
  tick_period_ns init_state = Some ((65535 + 1) * (128 * 1000)) /\
  tick_period_ns init_state = Some 8388608000 /\
  8300000000 < 8388608000 < 8500000000 /\
  tick_period_ns init_state <> Some 1000000000.
Proof. vm_compute. repeat split; congruence. Qed.

(** ** Mode controller *)

Lemma land_BV_testbit a k :
  0 <= k -> (Z.land a (_BV k) =? 0) = negb (Z.testbit a k).
Proof.
  intros Hk. unfold _BV. rewrite Z.shiftl_1_l.
  destruct (Z.testbit a k) eqn:Hb; simpl.
  - apply Z.eqb_neq. intros H0.
    assert (Z.testbit (Z.land a (2 ^ k)) k = true)
      by (rewrite Z.land_spec, Hb, Z.pow2_bits_true by lia; reflexivity).
    rewrite H0, Z.bits_0 in H. discriminate.
  - apply Z.eqb_eq. apply Z.bits_inj'. intros n Hn.
    rewrite Z.land_spec, Z.bits_0, Z.pow2_bits_eqb by lia.
    destruct (Z.eqb_spec k n); subst; rewrite ?Hb, ?andb_false_r; reflexivity.
Qed.

Lemma ISR_INT1_mode pind s :
  ld feedback_mode (ISR_INT1 pind s) =
  if Z.testbit (pind 25000) PD3 then ld feedback_mode s
  else (ld feedback_mode s + 1) mod 2 ^ 8.
Proof.
  unfold ISR_INT1. rewrite land_BV_testbit by (unfold PD3; lia).
  destruct (Z.testbit (pind 25000) PD3); st_simpl; reflexivity.
Qed.

(** C4. If the button stays asserted (PD3 low) throughout the 25 ms settle
    delay, the handler advances Feedback Mode by one modulo 4; if the pin
    reads not asserted when re-sampled after the delay, Feedback Mode is
    unchanged. *)
Theorem C4_debounced_press (pind : Z -> Z) (s : state) :
  ((forall t, 0 <= t <= 25000 -> Z.testbit (pind t) PD3 = false) ->
   ld feedback_mode (ISR_INT1 pind s) mod 4 = (ld feedback_mode s + 1) mod 4) /\
  (Z.testbit (pind 25000) PD3 = true ->
   ld feedback_mode (ISR_INT1 pind s) = ld feedback_mode s).
Proof.
  rewrite ISR_INT1_mode. split.
  - intros Hheld. rewrite Hheld by lia.
    apply Z.mod_mod_divide. exists 64. reflexivity.
  - intros ->. reflexivity.
Qed.

Lemma C4_debounced_press_witness :
  ld feedback_mode (ISR_INT1 (fun _ => 0) init_state) mod 4 = 1 /\
  ld feedback_mode (ISR_INT1 (fun _ => 8) init_state) = 0.
Proof.
  split.
  - apply (proj1 (C4_debounced_press (fun _ => 0) init_state)).
    intros t Ht. reflexivity.
  - apply (proj2 (C4_debounced_press (fun _ => 8) init_state)).
    reflexivity.
Defined.

(** ** Hex encoder *)

Lemma hexu64_loop_eq x p buf :
  hexu64_loop x p buf =
  if 0 <=? p then
    match store_char buf p (hexdigit x) with
    | Some buf' => hexu64_loop (Z.shiftr x 4) (p - 1) buf'
    | None => None
    end
  else Some buf.
Proof.
  funelim (hexu64_loop x p buf).
  - rewrite Hge. destruct (store_char buf p (hexdigit x)); reflexivity.
  - rewrite Hge. reflexivity.
Qed.

Lemma land_15 x : Z.land x 15 = x mod 16.
Proof. change 15 with (Z.ones 4). rewrite Z.land_ones by lia. reflexivity. Qed.

Lemma hexdigit_cases x :
  (hexdigit x = 48 + x mod 16 /\ 0 <= x mod 16 < 10) \/
  (hexdigit x = 55 + x mod 16 /\ 10 <= x mod 16 < 16).
Proof.
  unfold hexdigit. rewrite land_15.
  pose proof (Z.mod_pos_bound x 16 ltac:(lia)) as Hd.
  rewrite (Z.mod_small (x mod 16) 256) by lia.
  destruct (Z.ltb_spec (x mod 16) 10); [left | right]; lia.
Qed.

Lemma hexdigit_char x : hexdigit x mod 256 = hexdigit x.
Proof. destruct (hexdigit_cases x) as [[-> ?]|[-> ?]]; apply Z.mod_small; lia. Qed.

Lemma hexdigit_upper x : is_hex_upper (hexdigit x) = true.
Proof.
  unfold is_hex_upper.
  destruct (hexdigit_cases x) as [[-> ?]|[-> ?]];
    repeat match goal with
           | |- context [?a <=? ?b] => destruct (Z.leb_spec a b); try lia
           end; reflexivity.
Qed.

Lemma hexval_hexdigit x : hexval (hexdigit x) = Some (x mod 16).
Proof.
  unfold hexval.
  destruct (hexdigit_cases x) as [[-> ?]|[-> ?]];
    repeat match goal with
           | |- context [?a <=? ?b] => destruct (Z.leb_spec a b); try lia
           end; simpl; f_equal; lia.
Qed.

Lemma store_char_in buf i c :
  0 <= i < Z.of_nat (length buf) ->
  store_char buf i c = Some (<[Z.to_nat i := c mod 256]> buf).
Proof.
  intros Hi. unfold store_char.
  destruct (Z.leb_spec 0 i); [|lia].
  destruct (Z.ltb_spec i (Z.of_nat (length buf))); [|lia]. reflexivity.
Qed.

Lemma store_char_out buf i c :
  i < 0 \/ Z.of_nat (length buf) <= i -> store_char buf i c = None.
Proof.
  intros Hi. unfold store_char.
  destruct (Z.leb_spec 0 i); [|reflexivity].
  destruct (Z.ltb_spec i (Z.of_nat (length buf))); [lia|]. reflexivity.
Qed.

Lemma length_hex_digits n x : length (hex_digits n x) = n.
Proof.
  revert x. induction n as [|n IH]; intros x; simpl; [reflexivity|].
  rewrite length_app, IH. simpl. lia.
Qed.

Lemma hexu64_loop_digits n x (buf : list Z) :
  (n <= length buf)%nat ->
  hexu64_loop x (Z.of_nat n - 1) buf = Some (hex_digits n x ++ drop n buf).
Proof.
  revert x buf. induction n as [|n IH]; intros x buf Hn.
  - rewrite hexu64_loop_eq. reflexivity.
  - rewrite hexu64_loop_eq.
    destruct (Z.leb_spec 0 (Z.of_nat (S n) - 1)); [|lia].
    rewrite store_char_in by lia.
    replace (Z.to_nat (Z.of_nat (S n) - 1)) with n by lia.
    replace (Z.of_nat (S n) - 1 - 1) with (Z.of_nat n - 1) by lia.
    rewrite IH by (rewrite length_insert; lia).
    rewrite hexdigit_char. simpl hex_digits. rewrite <- app_assoc. simpl.
    rewrite insert_take_drop by lia.
    rewrite drop_app_length' by (rewrite length_take; lia).
    reflexivity.
Qed.

Lemma hexu64_result x (buf : list Z) :
  (17 <= length buf)%nat ->
  hexu64 x buf = Some (hex_digits 16 x ++ 0 :: drop 17 buf).
Proof.
  intros Hlen. unfold hexu64.
  rewrite store_char_in by lia.
  change 15 with (Z.of_nat 16 - 1).
  rewrite hexu64_loop_digits by (rewrite length_insert; lia).
  change (Z.to_nat 16) with 16%nat. change (0 mod 256) with 0.
  rewrite insert_take_drop by lia.
  rewrite drop_app_length' by (rewrite length_take; lia).
  reflexivity.
Qed.

Lemma hexu64_short x (buf : list Z) :
  (length buf < 17)%nat -> hexu64 x buf = None.
Proof.
  intros Hlen. unfold hexu64. rewrite store_char_out by lia. reflexivity.
Qed.

Lemma parse_hex_snoc cs c :
  parse_hex (cs ++ [c]) =
  match parse_hex cs, hexval c with
  | Some a, Some d => Some (16 * a + d)
  | _, _ => None
  end.
Proof. unfold parse_hex. rewrite fold_left_app. reflexivity. Qed.

Lemma parse_hex_digits n x :
  0 <= x -> parse_hex (hex_digits n x) = Some (x mod 16 ^ Z.of_nat n).
Proof.
  revert x. induction n as [|n IH]; intros x Hx.
  - simpl. rewrite Z.mod_1_r. reflexivity.
  - simpl hex_digits. rewrite parse_hex_snoc, hexval_hexdigit.
    rewrite IH by (apply Z.shiftr_nonneg; lia).
    f_equal. rewrite Z.shiftr_div_pow2 by lia. change (2 ^ 4) with 16.
    rewrite Nat2Z.inj_succ, Z.pow_succ_r by lia.
    rewrite (Z.rem_mul_r x 16 (16 ^ Z.of_nat n)) by lia. lia.
Qed.

Lemma Forall_hex_digits n x :
  Forall (fun c => is_hex_upper c = true) (hex_digits n x).
Proof.
  revert x. induction n as [|n IH]; intros x; simpl.
  - constructor.
  - apply Forall_app. split; [apply IH|]. repeat constructor. apply hexdigit_upper.
Qed.

(** C2. For every 64-bit value [x], [hexu64] leaves in a 17-byte buffer
    sixteen characters from 0-9A-F followed by NUL, and reading the sixteen
    characters as a base-16 numeral gives [x] back.  Zero encodes as
    0000000000000000 and 255 as 00000000000000FF. *)
Theorem C2_hexu64_roundtrip :
  (forall x buf,
      0 <= x <= UINT64_MAX ->
      length buf = Z.to_nat SER_BUFF_LEN ->
      exists digits,
        hexu64 x buf = Some (digits ++ [0]) /\
        length digits = 16%nat /\
        Forall (fun c => is_hex_upper c = true) digits /\
        parse_hex digits = Some x) /\
  (forall buf, length buf = Z.to_nat SER_BUFF_LEN ->
      hexu64 0 buf = Some (chars "0000000000000000" ++ [0])) /\
  (forall buf, length buf = Z.to_nat SER_BUFF_LEN ->
      hexu64 255 buf = Some (chars "00000000000000FF" ++ [0])).
Proof.
  assert (Htail : forall buf : list Z,
             length buf = Z.to_nat SER_BUFF_LEN -> drop 17 buf = []).
  { intros buf Hlen. apply drop_ge. rewrite Hlen. reflexivity. }
  split; [|split].
  - intros x buf Hx Hlen. exists (hex_digits 16 x).
    rewrite hexu64_result by (rewrite Hlen; vm_compute; lia).
    rewrite (Htail _ Hlen).
    split; [reflexivity|]. split; [apply length_hex_digits|].
    split; [apply Forall_hex_digits|].
    rewrite parse_hex_digits by lia. f_equal.
    apply Z.mod_small. unfold UINT64_MAX in Hx.
    change (16 ^ Z.of_nat 16) with (2 ^ 64). lia.
  - intros buf Hlen.
    rewrite hexu64_result by (rewrite Hlen; vm_compute; lia).
    rewrite (Htail _ Hlen). reflexivity.
  - intros buf Hlen.
    rewrite hexu64_result by (rewrite Hlen; vm_compute; lia).
    rewrite (Htail _ Hlen). reflexivity.
Qed.

Lemma C2_hexu64_roundtrip_witness :
  (exists digits,
      hexu64 3735928559 (repeat 0 17) = Some (digits ++ [0]) /\
      length digits = 16%nat /\
      Forall (fun c => is_hex_upper c = true) digits /\
      parse_hex digits = Some 3735928559) /\
  hexu64 0 (repeat 32 17) = Some (chars "0000000000000000" ++ [0]) /\
  hexu64 255 (repeat 32 17) = Some (chars "00000000000000FF" ++ [0]).
Proof.
  split; [|split].
  - apply (proj1 C2_hexu64_roundtrip 3735928559 (repeat 0 17)).
    + unfold UINT64_MAX. lia.
    + reflexivity.
  - apply (proj1 (proj2 C2_hexu64_roundtrip) (repeat 32 17)). reflexivity.
  - apply (proj2 (proj2 C2_hexu64_roundtrip) (repeat 32 17)). reflexivity.
Defined.

Lemma hexu64_iter_sound n st st' :
  hexu64_iter n st st' ->
  Z.of_nat n = Z.max 0 (snd (fst st) + 1) /\
  hexu64_loop (fst (fst st)) (snd (fst st)) (snd st) = Some (snd st').
Proof.
  induction 1 as [x p buf Hp | n x p buf buf' st Hp Hst _ [IHn IHr]]; simpl in *.
  - apply Z.leb_gt in Hp. split; [lia|].
    rewrite hexu64_loop_eq. destruct (Z.leb_spec 0 p); [lia | reflexivity].
  - apply Z.leb_le in Hp. split; [lia|].
    rewrite hexu64_loop_eq. destruct (Z.leb_spec 0 p); [|lia].
    rewrite Hst. exact IHr.
Qed.

Lemma hexu64_iter_complete n x (buf : list Z) :
  (n <= length buf)%nat ->
  exists st, hexu64_iter n (x, Z.of_nat n - 1, buf) st.
Proof.
  revert x buf. induction n as [|n IH]; intros x buf Hn.
  - eexists. apply hexu64_iter_exit. reflexivity.
  - destruct (IH (Z.shiftr x 4) (<[n := hexdigit x mod 256]> buf)) as [st Hst];
      [rewrite length_insert; lia|].
    exists st. eapply hexu64_iter_body.
    + apply Z.leb_le. lia.
    + rewrite store_char_in by lia.
      replace (Z.to_nat (Z.of_nat (S n) - 1)) with n by lia. reflexivity.
    + replace (Z.of_nat (S n) - 1 - 1) with (Z.of_nat n - 1) by lia. exact Hst.
Qed.

(** C9. On a 17-byte buffer [hexu64] never faults, so every store lands
    on an index in 0..16, and memory that follows the buffer is left
    alone; a shorter buffer is overrun.  All 17 bytes are overwritten (the
    result does not depend on the old contents), each with NUL or a
    character of 0-9A-F.  The digit loop runs 16 times, no more and no
    fewer, whatever [x] is. *)
Theorem C9_hexu64_safety (x : Z) :
  (forall buf rest : list Z,
      length buf = Z.to_nat SER_BUFF_LEN ->
      exists buf',
        hexu64 x buf = Some buf' /\
        hexu64 x (buf ++ rest) = Some (buf' ++ rest) /\
        length buf' = Z.to_nat SER_BUFF_LEN /\
        Forall (fun c => c = 0 \/ is_hex_upper c = true) buf' /\
        (forall buf2 : list Z,
            length buf2 = Z.to_nat SER_BUFF_LEN -> hexu64 x buf2 = Some buf')) /\
  (forall buf : list Z,
      (length buf < Z.to_nat SER_BUFF_LEN)%nat -> hexu64 x buf = None) /\
  (forall buf : list Z,
      (16 <= length buf)%nat ->
      (exists st, hexu64_iter 16 (x, 15, buf) st) /\
      (forall n st, hexu64_iter n (x, 15, buf) st ->
                    n = 16%nat /\ hexu64_loop x 15 buf = Some (snd st))).
Proof.
  change (Z.to_nat SER_BUFF_LEN) with 17%nat.
  split; [|split].
  - intros buf rest Hlen. exists (hex_digits 16 x ++ [0]).
    assert (Hres : forall b : list Z,
               length b = 17%nat -> hexu64 x b = Some (hex_digits 16 x ++ [0])).
    { intros b Hb. rewrite hexu64_result by lia.
      rewrite (drop_ge b 17) by lia. reflexivity. }
    split; [apply Hres; exact Hlen|].
    split.
    { rewrite hexu64_result by (rewrite length_app; lia).
      rewrite drop_app_length' by (symmetry; exact Hlen).
      rewrite <- app_assoc. reflexivity. }
    split; [rewrite length_app, length_hex_digits; reflexivity|].
    split; [|exact Hres].
    apply Forall_app. split.
    + eapply Forall_impl; [apply Forall_hex_digits|]. intros c Hc. right. exact Hc.
    + constructor; [left; reflexivity | constructor].
  - intros buf Hlen. apply hexu64_short. exact Hlen.
  - intros buf Hlen. split.
    + apply (hexu64_iter_complete 16 x buf Hlen).
    + intros n st Hrun. apply hexu64_iter_sound in Hrun. simpl in Hrun.
      destruct Hrun as [Hn Hr]. split; [lia | exact Hr].
Qed.

Lemma C9_hexu64_safety_witness :
  (exists buf',
      hexu64 48879 (repeat 7 17) = Some buf' /\
      hexu64 48879 (repeat 7 17 ++ [1; 2; 3]) = Some (buf' ++ [1; 2; 3]) /\
      length buf' = Z.to_nat SER_BUFF_LEN /\
      Forall (fun c => c = 0 \/ is_hex_upper c = true) buf' /\
      (forall buf2 : list Z,
          length buf2 = Z.to_nat SER_BUFF_LEN -> hexu64 48879 buf2 = Some buf')) /\
  hexu64 48879 (repeat 7 16) = None /\
  (exists st, hexu64_iter 16 (48879, 15, repeat 7 17) st).
Proof.
  split; [|split].
  - apply (proj1 (C9_hexu64_safety 48879) (repeat 7 17) [1; 2; 3]).
    reflexivity.
  - apply (proj1 (proj2 (C9_hexu64_safety 48879)) (repeat 7 16)).
    vm_compute. lia.
  - apply (proj2 (proj2 (C9_hexu64_safety 48879)) (repeat 7 17)).
    vm_compute. lia.
Defined.

(** ** Serial transmitter and reporter *)

Lemma uart_putchar_eq c s :
  uart_putchar c s =
  if c =? 10 then store UDR c (uart_putchar 13 s) else store UDR c s.
Proof. funelim (uart_putchar c s); rewrite Hnl; reflexivity. Qed.

Lemma uart_putchar_plain c s : c <> 10 -> uart_putchar c s = store UDR c s.
Proof.
  intros Hc. rewrite uart_putchar_eq.
  destruct (Z.eqb_spec c 10); [contradiction | reflexivity].
Qed.

Lemma uart_putchar_newline s :
  uart_putchar 10 s = store UDR 10 (store UDR 13 s).
Proof.
  rewrite uart_putchar_eq. simpl. rewrite uart_putchar_plain by lia. reflexivity.
Qed.

Lemma hex_upper_bounds c : is_hex_upper c = true -> 48 <= c <= 70.
Proof.
  unfold is_hex_upper. intros H.
  apply orb_true_iff in H. destruct H as [H|H];
    apply andb_true_iff in H; destruct H as [H1 H2];
    apply Z.leb_le in H1, H2; lia.
Qed.

Lemma uart_putstring_text cs rest s :
  Forall (fun c => is_hex_upper c = true) cs ->
  uart_putstring (cs ++ 0 :: rest) s = Some (send_all cs s).
Proof.
  intros Hcs. revert s. induction Hcs as [|c cs Hc _ IH]; intros s; simpl.
  - reflexivity.
  - apply hex_upper_bounds in Hc.
    destruct (Z.eqb_spec c 0); [lia|].
    rewrite uart_putchar_plain by lia. apply IH.
Qed.

Lemma send_all_trace cs s :
  Forall (fun c => is_hex_upper c = true) cs ->
  trace (send_all cs s) = trace s ++ map (EvStore UDR) cs.
Proof.
  intros Hcs. revert s. induction Hcs as [|c cs Hc _ IH]; intros s; simpl.
  - rewrite app_nil_r. reflexivity.
  - unfold send_all in IH. rewrite IH. st_simpl. rewrite <- app_assoc. simpl.
    apply hex_upper_bounds in Hc. unfold wrap. simpl width.
    rewrite Z.mod_small by lia. reflexivity.
Qed.

Lemma send_all_serbuf cs s : serbuf (send_all cs s) = serbuf s.
Proof.
  revert s. induction cs as [|c cs IH]; intros s; simpl; [reflexivity|].
  unfold send_all in IH. rewrite IH. reflexivity.
Qed.

Lemma send_all_ld cs l s : l <> UDR -> ld l (send_all cs s) = ld l s.
Proof.
  intros Hl. revert s. induction cs as [|c cs IH]; intros s; simpl; [reflexivity|].
  unfold send_all in IH. rewrite IH. apply ld_store_other. congruence.
Qed.

Lemma uart_tx_app t1 t2 : uart_tx (t1 ++ t2) = uart_tx t1 ++ uart_tx t2.
Proof.
  induction t1 as [|e t1 IH]; simpl; [reflexivity|].
  destruct e as [l v|us]; [destruct l|]; simpl; rewrite IH; reflexivity.
Qed.

Lemma uart_tx_stores cs : uart_tx (map (EvStore UDR) cs) = cs.
Proof. induction cs as [|c cs IH]; simpl; [|rewrite IH]; reflexivity. Qed.

(** C3. With [tick] clear the reporter changes nothing and sends nothing.
    With [tick] set it clears the flag and hands the UART exactly the 16
    hex digits of [count], then CR and LF; nothing else is written apart
    from the serial buffer. *)
Theorem C3_sendreport (s : state) :
  (ld tick s = 0 -> sendreport s = Some s) /\
  (ld tick s <> 0 -> wf_state s ->
   exists s' digits,
     sendreport s = Some s' /\
     ld tick s' = 0 /\
     length digits = 16%nat /\
     Forall (fun c => is_hex_upper c = true) digits /\
     parse_hex digits = Some (ld count s) /\
     trace s' = trace s ++ EvStore tick 0 :: map (EvStore UDR) (digits ++ [13; 10]) /\
     uart_tx (trace s') = uart_tx (trace s) ++ digits ++ [13; 10] /\
     serbuf s' = digits ++ [0] /\
     (forall l, l <> tick -> l <> UDR -> ld l s' = ld l s)).
Proof.
  split.
  - intros Ht. unfold sendreport. rewrite Ht. reflexivity.
  - intros Ht [Hlen Hrange].
    change (Z.to_nat SER_BUFF_LEN) with 17%nat in Hlen.
    pose proof (Forall_hex_digits 16 (ld count s)) as Hhex.
    pose proof (length_hex_digits 16 (ld count s)) as Hlen16.
    assert (Hparse : parse_hex (hex_digits 16 (ld count s)) = Some (ld count s)).
    { rewrite parse_hex_digits by (apply Hrange). f_equal.
      apply Z.mod_small. exact (Hrange count). }
    unfold sendreport.
    destruct (Z.eqb_spec (ld tick s) 0) as [|_]; [contradiction|]. cbn [negb].
    change (ld count (store tick 0 s)) with (ld count s).
    change (serbuf (store tick 0 s)) with (serbuf s).
    rewrite hexu64_result by lia. rewrite (drop_ge (serbuf s) 17) by lia.
    remember (hex_digits 16 (ld count s)) as digits eqn:Hd.
    cbn [set_serbuf serbuf].
    rewrite uart_putstring_text by exact Hhex.
    eexists. exists digits. split; [reflexivity|].
    assert (Htr : trace (uart_putchar 10 (send_all digits
                    (set_serbuf (digits ++ [0]) (store tick 0 s)))) =
                  trace s ++ EvStore tick 0 :: map (EvStore UDR) (digits ++ [13; 10])).
    { rewrite uart_putchar_newline. cbn [store trace].
      rewrite send_all_trace by exact Hhex. st_simpl.
      rewrite map_app, <- !app_assoc. reflexivity. }
    split.
    { rewrite uart_putchar_newline.
      rewrite !ld_store_other by congruence.
      rewrite send_all_ld by congruence. reflexivity. }
    split; [exact Hlen16|]. split; [exact Hhex|]. split; [exact Hparse|].
    split; [exact Htr|].
    split.
    { rewrite Htr. rewrite uart_tx_app. simpl uart_tx.
      rewrite uart_tx_stores. reflexivity. }
    split.
    { rewrite uart_putchar_newline. cbn [store serbuf].
      rewrite send_all_serbuf. reflexivity. }
    intros l Hl1 Hl2. rewrite uart_putchar_newline.
    rewrite !ld_store_other by congruence.
    rewrite send_all_ld by congruence.
    change (ld l (set_serbuf (digits ++ [0]) (store tick 0 s)))
      with (ld l (store tick 0 s)).
    apply ld_store_other. congruence.
Qed.

Lemma C3_sendreport_witness :
  sendreport init_state = Some init_state /\
  exists s' digits,
    sendreport (ISR_TIMER1_COMPA init_state) = Some s' /\
    ld tick s' = 0 /\
    length digits = 16%nat /\
    Forall (fun c => is_hex_upper c = true) digits /\
    parse_hex digits = Some (ld count (ISR_TIMER1_COMPA init_state)) /\
    trace s' = trace (ISR_TIMER1_COMPA init_state)
               ++ EvStore tick 0 :: map (EvStore UDR) (digits ++ [13; 10]) /\
    uart_tx (trace s') =
      uart_tx (trace (ISR_TIMER1_COMPA init_state)) ++ digits ++ [13; 10] /\
    serbuf s' = digits ++ [0] /\
    (forall l, l <> tick -> l <> UDR -> ld l s' = ld l (ISR_TIMER1_COMPA init_state)).
Proof.
  split.
  - apply (proj1 (C3_sendreport init_state)). reflexivity.
  - apply (proj2 (C3_sendreport (ISR_TIMER1_COMPA init_state))).
    + vm_compute. discriminate.
    + split; [reflexivity|].
      intros l; destruct l; vm_compute; split; (discriminate || reflexivity).
Defined.

(** ** Feedback actuator *)

Lemma land_1_testbit m : negb (Z.land m 1 =? 0) = Z.testbit m 0.
Proof.
  change 1 with (_BV 0) at 1. rewrite land_BV_testbit by lia.
  apply negb_involutive.
Qed.

Lemma land_2_testbit m : negb (Z.land m 2 =? 0) = Z.testbit m 1.
Proof.
  change 2 with (_BV 1). rewrite land_BV_testbit by lia.
  apply negb_involutive.
Qed.

Lemma u8_lor a b :
  a mod 2 ^ 8 = a -> b mod 2 ^ 8 = b -> Z.lor a b mod 2 ^ 8 = Z.lor a b.
Proof.
  rewrite <- !Z.land_ones by lia. intros Ha Hb.
  rewrite Z.land_lor_distr_l, Ha, Hb. reflexivity.
Qed.

Lemma u8_land a c : a mod 2 ^ 8 = a -> Z.land a c mod 2 ^ 8 = Z.land a c.
Proof.
  rewrite <- !Z.land_ones by lia. intros Ha.
  rewrite <- Z.land_assoc, (Z.land_comm c), Z.land_assoc, Ha. reflexivity.
Qed.

Lemma clear_after_set a k :
  0 <= k ->
  Z.land (Z.lor a (_BV k)) (Z.lnot (_BV k)) = Z.land a (Z.lnot (_BV k)).
Proof.
  intros Hk. rewrite Z.land_lor_distr_l.
  replace (Z.land (_BV k) (Z.lnot (_BV k))) with 0.
  - apply Z.lor_0_r.
  - symmetry. rewrite <- Z.ldiff_land. apply Z.ldiff_diag.
Qed.

Lemma testbit_set a k : 0 <= k -> Z.testbit (Z.lor a (_BV k)) k = true.
Proof.
  intros Hk. unfold _BV. rewrite Z.shiftl_1_l, Z.lor_spec, Z.pow2_bits_true by lia.
  apply orb_true_r.
Qed.

Lemma testbit_clear a k : 0 <= k -> Z.testbit (Z.land a (Z.lnot (_BV k))) k = false.
Proof.
  intros Hk. unfold _BV.
  rewrite Z.shiftl_1_l, Z.land_spec, Z.lnot_spec, Z.pow2_bits_true by lia.
  apply andb_false_r.
Qed.

Lemma wf_u8 s l : wf_state s -> width l = 8 -> ld l s mod 2 ^ 8 = ld l s.
Proof.
  intros [_ Hr] Hw. specialize (Hr l). rewrite Hw in Hr. apply Z.mod_small. exact Hr.
Qed.

Lemma ld_delay_ms l ms s : ld l (delay_ms ms s) = ld l s.
Proof. reflexivity. Qed.

(** What [checkevent] does once it has seen the flag, with the two mode
    tests made explicit. *)
Lemma checkevent_active s :
  ld eventflag s <> 0 ->
  checkevent s =
  let led := Z.testbit (ld feedback_mode s) 0 in
  let tone := Z.testbit (ld feedback_mode s) 1 in
  let s := store eventflag 0 s in
  let s := if led then store PORTB (Z.lor (ld PORTB s) (_BV PB4)) s else s in
  let s := if tone
           then
             let s := store TCCR0A (Z.lor (ld TCCR0A s) (_BV COM0A0)) s in
             let s := store TCCR0B (Z.lor (ld TCCR0B s) (_BV CS01)) s in
             store OCR0A 160 s
           else s in
  let s := delay_ms 10 s in
  let s := store PORTB (Z.land (ld PORTB s) (Z.lnot (_BV PB4))) s in
  let s := store TCCR0B 0 s in
  store TCCR0A (Z.land (ld TCCR0A s) (Z.lnot (_BV COM0A0))) s.
Proof.
  intros Hf. unfold checkevent.
  destruct (Z.eqb_spec (ld eventflag s) 0); [contradiction|]. cbn [negb].
  rewrite !land_1_testbit, !land_2_testbit. cbv zeta.
  change (ld feedback_mode (store eventflag 0 s)) with (ld feedback_mode s).
  destruct (Z.testbit (ld feedback_mode s) 0); reflexivity.
Qed.

(** C5. With the event flag clear [checkevent] does nothing.  With it set,
    the first thing it does is clear the flag; it then switches the LED on
    exactly when bit 0 of the mode is set and starts Timer0 (output
    connected, clock selected, compare value 160) exactly when bit 1 is
    set, waits 10 ms, and finally always switches the LED off, stops
    Timer0 and disconnects its output. *)
Theorem C5_checkevent (s : state) :
  (ld eventflag s = 0 -> checkevent s = s) /\
  (ld eventflag s <> 0 -> wf_state s ->
   trace (checkevent s) =
     trace s
     ++ [EvStore eventflag 0]
     ++ (if Z.testbit (ld feedback_mode s) 0
         then [EvStore PORTB (Z.lor (ld PORTB s) (_BV PB4))] else [])
     ++ (if Z.testbit (ld feedback_mode s) 1
         then [EvStore TCCR0A (Z.lor (ld TCCR0A s) (_BV COM0A0));
               EvStore TCCR0B (Z.lor (ld TCCR0B s) (_BV CS01));
               EvStore OCR0A 160] else [])
     ++ [EvDelay 10000;
         EvStore PORTB (Z.land (ld PORTB s) (Z.lnot (_BV PB4)));
         EvStore TCCR0B 0;
         EvStore TCCR0A (Z.land (ld TCCR0A s) (Z.lnot (_BV COM0A0)))] /\
   Z.testbit (Z.lor (ld PORTB s) (_BV PB4)) PB4 = true /\
   Z.testbit (Z.lor (ld TCCR0A s) (_BV COM0A0)) COM0A0 = true /\
   Z.testbit (Z.lor (ld TCCR0B s) (_BV CS01)) CS01 = true /\
   ld eventflag (checkevent s) = 0 /\
   Z.testbit (ld PORTB (checkevent s)) PB4 = false /\
   ld TCCR0B (checkevent s) = 0 /\
   Z.testbit (ld TCCR0A (checkevent s)) COM0A0 = false /\
   ld OCR0A (checkevent s) =
     (if Z.testbit (ld feedback_mode s) 1 then 160 else ld OCR0A s) /\
   serbuf (checkevent s) = serbuf s /\
   (forall l, l <> eventflag -> l <> PORTB -> l <> TCCR0A -> l <> TCCR0B ->
              l <> OCR0A -> ld l (checkevent s) = ld l s)).
Proof.
  split.
  - intros Hf. unfold checkevent. rewrite Hf. reflexivity.
  - intros Hf Hwf. rewrite (checkevent_active s Hf).
    pose proof (wf_u8 s PORTB Hwf eq_refl) as HB.
    pose proof (wf_u8 s TCCR0A Hwf eq_refl) as HA.
    pose proof (wf_u8 s TCCR0B Hwf eq_refl) as HT.
    assert (Hbv : forall k, 0 <= k < 8 -> _BV k mod 2 ^ 8 = _BV k).
    { intros k Hk. assert (k = 0 \/ k = 1 \/ k = 2 \/ k = 3 \/ k = 4 \/ k = 5 \/
                           k = 6 \/ k = 7) as Hc by lia.
      repeat (destruct Hc as [-> | Hc]; [reflexivity|]). subst k. reflexivity. }
    pose proof (u8_lor _ _ HB (Hbv PB4 ltac:(unfold PB4; lia))) as HBon.
    pose proof (u8_lor _ _ HA (Hbv COM0A0 ltac:(unfold COM0A0; lia))) as HAon.
    pose proof (u8_lor _ _ HT (Hbv CS01 ltac:(unfold CS01; lia))) as HTon.
    pose proof (u8_land _ (Z.lnot (_BV PB4)) HB) as HBoff.
    pose proof (u8_land _ (Z.lnot (_BV COM0A0)) HA) as HAoff.
    pose proof (clear_after_set (ld PORTB s) PB4 ltac:(unfold PB4; lia)) as HBc.
    pose proof (clear_after_set (ld TCCR0A s) COM0A0 ltac:(unfold COM0A0; lia)) as HAc.
    split; [|split; [|split; [|split; [|split; [|split; [|split; [|split; [|split]]]]]]]].
    + cbv zeta.
      destruct (Z.testbit (ld feedback_mode s) 0);
        destruct (Z.testbit (ld feedback_mode s) 1);
        unfold ld in *; cbn [store mem trace loc_eqb delay_ms delay_us];
        unfold wrap; cbn [width];
        rewrite ?HBon, ?HAon, ?HTon, ?HBc, ?HAc, ?HBoff, ?HAoff;
        rewrite <- ?app_assoc; reflexivity.
    + apply testbit_set. unfold PB4. lia.
    + apply testbit_set. unfold COM0A0. lia.
    + apply testbit_set. unfold CS01. lia.
    + cbv zeta. rewrite !ld_store_other by congruence.
      destruct (Z.testbit (ld feedback_mode s) 0);
        destruct (Z.testbit (ld feedback_mode s) 1); reflexivity.
    + cbv zeta. rewrite !ld_store_other by congruence. rewrite ld_store_same.
      unfold wrap. cbn [width]. rewrite <- Z.land_ones, <- Z.land_assoc by lia.
      rewrite (Z.land_comm (Z.lnot _)), Z.land_assoc.
      apply testbit_clear. unfold PB4. lia.
    + cbv zeta. rewrite ld_store_other by congruence. rewrite ld_store_same. reflexivity.
    + cbv zeta. rewrite ld_store_same.
      unfold wrap. cbn [width]. rewrite <- Z.land_ones, <- Z.land_assoc by lia.
      rewrite (Z.land_comm (Z.lnot _)), Z.land_assoc.
      apply testbit_clear. unfold COM0A0. lia.
    + cbv zeta. rewrite !ld_store_other by congruence. rewrite ld_delay_ms.
      destruct (Z.testbit (ld feedback_mode s) 0);
        destruct (Z.testbit (ld feedback_mode s) 1); reflexivity.
    + split.
      * cbv zeta.
        destruct (Z.testbit (ld feedback_mode s) 0);
          destruct (Z.testbit (ld feedback_mode s) 1); reflexivity.
      * intros l H1 H2 H3 H4 H5. cbv zeta.
        rewrite !ld_store_other by congruence.
        destruct (Z.testbit (ld feedback_mode s) 0);
          destruct (Z.testbit (ld feedback_mode s) 1);
          rewrite ld_delay_ms; rewrite ?ld_store_other by congruence;
          reflexivity.
Qed.

Lemma C5_checkevent_witness :
  checkevent init_state = init_state /\
  trace (checkevent (ISR_INT0 (ISR_INT1 (fun _ => 0) power_on))) =
    trace (ISR_INT0 (ISR_INT1 (fun _ => 0) power_on))
    ++ [EvStore eventflag 0; EvStore PORTB 16; EvDelay 10000;
        EvStore PORTB 0; EvStore TCCR0B 0; EvStore TCCR0A 0].
Proof.
  split.
  - apply (proj1 (C5_checkevent init_state)). reflexivity.
  - refine (proj1 (proj2 (C5_checkevent (ISR_INT0 (ISR_INT1 (fun _ => 0) power_on))) _ _)).
    + vm_compute. discriminate.
    + split; [reflexivity|].
      intros l; destruct l; vm_compute; split; (discriminate || reflexivity).
Defined.

Lemma testbit_mod4 m k : 0 <= k < 2 -> Z.testbit (m mod 4) k = Z.testbit m k.
Proof.
  intros Hk. change 4 with (2 ^ 2). apply Z.mod_pow2_bits_low. lia.
Qed.

Lemma checkevent_mode s : ld feedback_mode (checkevent s) = ld feedback_mode s.
Proof.
  destruct (Z.eq_dec (ld eventflag s) 0) as [Hf|Hf].
  - unfold checkevent. rewrite Hf. reflexivity.
  - rewrite (checkevent_active s Hf). cbv zeta.
    destruct (Z.testbit (ld feedback_mode s) 0);
      destruct (Z.testbit (ld feedback_mode s) 1); reflexivity.
Qed.

(** C10. Two states that differ only in Feedback Mode, with modes equal
    modulo 4, go through [checkevent] with the same stores and delays and
    end equal everywhere outside the mode, which [checkevent] does not
    write.  A debounced press adds one to the mode modulo 256: from 3 it
    goes to 4, not back to 0, and from 255 it wraps to 0, so the low two
    bits keep cycling 0,1,2,3. *)
Theorem C10_mode_low_bits :
  (forall s1 s2,
      (forall l, l <> feedback_mode -> ld l s1 = ld l s2) ->
      serbuf s1 = serbuf s2 ->
      trace s1 = trace s2 ->
      ld feedback_mode s1 mod 4 = ld feedback_mode s2 mod 4 ->
      trace (checkevent s1) = trace (checkevent s2) /\
      serbuf (checkevent s1) = serbuf (checkevent s2) /\
      (forall l, l <> feedback_mode ->
                 ld l (checkevent s1) = ld l (checkevent s2)) /\
      ld feedback_mode (checkevent s1) = ld feedback_mode s1 /\
      ld feedback_mode (checkevent s2) = ld feedback_mode s2) /\
  (forall pind s,
      Z.testbit (pind 25000) PD3 = false ->
      ld feedback_mode (ISR_INT1 pind s) = (ld feedback_mode s + 1) mod 256 /\
      ld feedback_mode (ISR_INT1 pind s) mod 4 =
        (ld feedback_mode s mod 4 + 1) mod 4 /\
      (ld feedback_mode s = 3 -> ld feedback_mode (ISR_INT1 pind s) = 4) /\
      (ld feedback_mode s = 255 -> ld feedback_mode (ISR_INT1 pind s) = 0)).
Proof.
  split.
  - intros s1 s2 Hmem Hbuf Htr Hmod.
    split; [|split; [|split; [|split]]]; try apply checkevent_mode.
    all: assert (Hb0 : Z.testbit (ld feedback_mode s1) 0 = Z.testbit (ld feedback_mode s2) 0)
        by (rewrite <- (testbit_mod4 (ld feedback_mode s1)),
                    <- (testbit_mod4 (ld feedback_mode s2)), Hmod by lia; reflexivity).
    all: assert (Hb1 : Z.testbit (ld feedback_mode s1) 1 = Z.testbit (ld feedback_mode s2) 1)
        by (rewrite <- (testbit_mod4 (ld feedback_mode s1)),
                    <- (testbit_mod4 (ld feedback_mode s2)), Hmod by lia; reflexivity).
    all: pose proof (Hmem eventflag ltac:(congruence)) as Hflag.
    all: destruct (Z.eq_dec (ld eventflag s2) 0) as [Hf|Hf].
    all: try (unfold checkevent; rewrite Hflag, Hf; cbn [Z.eqb negb]; auto; fail).
    all: assert (Hf1 : ld eventflag s1 <> 0) by (rewrite Hflag; exact Hf).
    all: rewrite (checkevent_active s1 Hf1), (checkevent_active s2 Hf); cbv zeta.
    all: rewrite Hb0, Hb1.
    all: destruct (Z.testbit (ld feedback_mode s2) 0);
           destruct (Z.testbit (ld feedback_mode s2) 1).
    all: pose proof (Hmem PORTB ltac:(congruence)) as HPB.
    all: pose proof (Hmem TCCR0A ltac:(congruence)) as HTA.
    all: pose proof (Hmem TCCR0B ltac:(congruence)) as HTB.
    all: unfold ld in *; cbn [store mem trace serbuf loc_eqb delay_ms delay_us].
    all: rewrite ?Htr, ?Hbuf, ?HPB, ?HTA, ?HTB.
    all: try reflexivity.
    all: intros l Hl; destruct l; try congruence; cbn [loc_eqb];
           try reflexivity; apply Hmem; congruence.
  - intros pind s Hlow. rewrite ISR_INT1_mode, Hlow. change (2 ^ 8) with 256.
    split; [reflexivity|]. split; [|split].
    + rewrite (Z.mod_mod_divide _ 256 4) by (exists 64; reflexivity).
      rewrite Z.add_mod_idemp_l by lia. reflexivity.
    + intros ->. reflexivity.
    + intros ->. reflexivity.
Qed.

Lemma C10_mode_low_bits_witness :
  trace (checkevent (mkState (fun l => if loc_eqb l feedback_mode then 2
                                        else mem (ISR_INT0 init_state) l)
                               (repeat 0 17) [])) =
  trace (checkevent (mkState (fun l => if loc_eqb l feedback_mode then 254
                                        else mem (ISR_INT0 init_state) l)
                               (repeat 0 17) [])) /\
  ld feedback_mode (ISR_INT1 (fun _ => 0) (store feedback_mode 255 init_state)) = 0.
Proof.
  split.
  - refine (proj1 (proj1 C10_mode_low_bits
                     (mkState (fun l => if loc_eqb l feedback_mode then 2
                                        else mem (ISR_INT0 init_state) l)
                              (repeat 0 17) [])
                     (mkState (fun l => if loc_eqb l feedback_mode then 254
                                        else mem (ISR_INT0 init_state) l)
                              (repeat 0 17) [])
                     _ _ _ _)).
    + intros l Hl. destruct l; try reflexivity. contradiction.
    + reflexivity.
    + reflexivity.
    + reflexivity.
  - refine (proj2 (proj2 (proj2 (proj2 C10_mode_low_bits (fun _ => 0)
                     (store feedback_mode 255 init_state) _))) _); reflexivity.
Defined.

(** ** Well-formed states are preserved *)

Lemma wrap_range l v : 0 <= wrap l v < 2 ^ width l.
Proof. unfold wrap. apply Z.mod_pos_bound. destruct l; reflexivity. Qed.

Lemma wf_store l v s : wf_state s -> wf_state (store l v s).
Proof.
  intros [Hlen Hr]. split; [exact Hlen|].
  intros l'. unfold ld, store; cbn [mem].
  destruct (loc_eqb l l') eqn:E.
  - apply loc_eqb_eq in E. subst l'. apply wrap_range.
  - apply Hr.
Qed.

Lemma wf_delay_us us s : wf_state s -> wf_state (delay_us us s).
Proof. intros H. exact H. Qed.

Lemma wf_delay_ms ms s : wf_state s -> wf_state (delay_ms ms s).
Proof. intros H. exact H. Qed.

Lemma wf_set_serbuf b s :
  length b = Z.to_nat SER_BUFF_LEN -> wf_state s -> wf_state (set_serbuf b s).
Proof. intros Hb [_ Hr]. split; [exact Hb | exact Hr]. Qed.

Lemma wf_send_all cs s : wf_state s -> wf_state (send_all cs s).
Proof.
  revert s. induction cs as [|c cs IH]; intros s Hs; simpl; [exact Hs|].
  apply IH. apply wf_store. exact Hs.
Qed.

Lemma wf_power_on : wf_state power_on.
Proof. split; [reflexivity|]. intros l. destruct l; vm_compute; split; congruence. Qed.

Lemma wf_init_state : wf_state init_state.
Proof. unfold init_state, main_init. repeat apply wf_store. apply wf_power_on. Qed.

Lemma wf_ISR_INT0 s : wf_state s -> wf_state (ISR_INT0 s).
Proof.
  intros Hs. unfold ISR_INT0.
  destruct (ld count s <? UINT64_MAX);
    repeat first [apply wf_store | apply wf_delay_us]; exact Hs.
Qed.

Lemma wf_ISR_INT1 pind s : wf_state s -> wf_state (ISR_INT1 pind s).
Proof.
  intros Hs. unfold ISR_INT1.
  destruct (Z.land (pind 25000) (_BV PD3) =? 0);
    repeat first [apply wf_store | apply wf_delay_ms]; exact Hs.
Qed.

Lemma wf_run_isr i s : wf_state s -> wf_state (run_isr i s).
Proof.
  intros Hs. destruct i; simpl.
  - apply wf_ISR_INT0; exact Hs.
  - apply wf_ISR_INT1; exact Hs.
  - apply wf_store; exact Hs.
Qed.

Lemma wf_checkevent s : wf_state s -> wf_state (checkevent s).
Proof.
  intros Hs. destruct (Z.eq_dec (ld eventflag s) 0) as [Hf|Hf].
  - unfold checkevent. rewrite Hf. exact Hs.
  - rewrite (checkevent_active s Hf). cbv zeta.
    destruct (Z.testbit (ld feedback_mode s) 0);
      destruct (Z.testbit (ld feedback_mode s) 1);
      repeat first [apply wf_store | apply wf_delay_ms]; exact Hs.
Qed.

(** The reporter on a well-formed state with [tick] set. *)
Lemma sendreport_active s :
  wf_state s -> ld tick s <> 0 ->
  sendreport s =
  Some (store UDR 10 (store UDR 13
          (send_all (hex_digits 16 (ld count s))
             (set_serbuf (hex_digits 16 (ld count s) ++ [0]) (store tick 0 s))))).
Proof.
  intros [Hlen _] Ht. change (Z.to_nat SER_BUFF_LEN) with 17%nat in Hlen.
  unfold sendreport.
  destruct (Z.eqb_spec (ld tick s) 0) as [|_]; [contradiction|]. cbn [negb].
  change (ld count (store tick 0 s)) with (ld count s).
  change (serbuf (store tick 0 s)) with (serbuf s).
  rewrite hexu64_result by lia. rewrite (drop_ge (serbuf s) 17) by lia.
  cbn [set_serbuf serbuf].
  rewrite uart_putstring_text by apply Forall_hex_digits.
  rewrite uart_putchar_newline. reflexivity.
Qed.

Lemma sendreport_wf s :
  wf_state s -> exists s', sendreport s = Some s' /\ wf_state s'.
Proof.
  intros Hs. destruct (Z.eq_dec (ld tick s) 0) as [Ht|Ht].
  - exists s. split; [|exact Hs]. unfold sendreport. rewrite Ht. reflexivity.
  - eexists. split; [apply sendreport_active; assumption|].
    do 2 apply wf_store. apply wf_send_all. apply wf_set_serbuf.
    + rewrite length_app, length_hex_digits. reflexivity.
    + apply wf_store. exact Hs.
Qed.

(** ** Main loop *)

Lemma step_wf c l c' : step c l c' -> wf_state (snd c) -> wf_state (snd c').
Proof.
  intros Hstep. destruct Hstep as [s | i s | s | s s' Hrep | s | p i s Hp]; simpl; intros Hs.
  - exact Hs.
  - apply wf_run_isr; exact Hs.
  - apply wf_checkevent; exact Hs.
  - destruct (sendreport_wf s Hs) as [s2 [Heq Hwf]]. congruence.
  - apply wf_checkevent; exact Hs.
  - apply wf_run_isr; exact Hs.
Qed.









(** * Further properties of the handlers and routines *)

(** ** Detector-pulse handler *)

Lemma testbit_clear_other a k n :
  0 <= k -> n <> k ->
  Z.testbit (Z.land a (Z.lnot (_BV k))) n = Z.testbit a n.
Proof.
  intros Hk Hn. destruct (Z.ltb_spec n 0) as [Hneg|Hpos].
  - rewrite !Z.testbit_neg_r by lia. reflexivity.
  - unfold _BV. rewrite Z.shiftl_1_l, Z.land_spec, Z.lnot_spec by lia.
    rewrite Z.pow2_bits_false by lia. apply andb_true_r.
Qed.

Lemma ISR_INT0_PORTD s :
  wf_state s ->
  ld PORTD (ISR_INT0 s) = Z.land (ld PORTD s) (Z.lnot (_BV PD6)).
Proof.
  intros Hwf. pose proof (wf_u8 s PORTD Hwf eq_refl) as HD.
  unfold ISR_INT0.
  destruct (ld count s <? UINT64_MAX);
    unfold ld in *; cbn [store mem trace loc_eqb delay_us];
    unfold wrap; cbn [width];
    rewrite (u8_lor _ (_BV PD6) HD eq_refl);
    rewrite (clear_after_set _ PD6 ltac:(unfold PD6; lia));
    apply u8_land; exact HD.
Qed.

Lemma ISR_INT0_ld l s :
  l <> count -> l <> PORTD -> l <> eventflag -> ld l (ISR_INT0 s) = ld l s.
Proof.
  intros H1 H2 H3. unfold ISR_INT0.
  destruct (ld count s <? UINT64_MAX);
    rewrite ?ld_store_other by congruence;
    change (ld l (delay_us PULSEWIDTH ?x)) with (ld l x);
    rewrite ?ld_store_other by congruence; reflexivity.
Qed.

(** X1. For every detector interrupt the handler raises PULSE, waits
    PULSEWIDTH microseconds and lowers it again, then sets the event
    flag; this happens also when the counter is saturated.  The other
    bits of PORTD are as before, and nothing but [count], PORTD and
    [eventflag] is written. *)
Theorem ISR_INT0_pulse (s : state) :
  wf_state s ->
  trace (ISR_INT0 s) =
    trace s
    ++ (if ld count s <? UINT64_MAX then [EvStore count (ld count s + 1)] else [])
    ++ [EvStore PORTD (Z.lor (ld PORTD s) (_BV PD6));
        EvDelay PULSEWIDTH;
        EvStore PORTD (Z.land (ld PORTD s) (Z.lnot (_BV PD6)));
        EvStore eventflag 1] /\
  Z.testbit (Z.lor (ld PORTD s) (_BV PD6)) PD6 = true /\
  Z.testbit (ld PORTD (ISR_INT0 s)) PD6 = false /\
  (forall n, n <> PD6 ->
             Z.testbit (ld PORTD (ISR_INT0 s)) n = Z.testbit (ld PORTD s) n) /\
  ld eventflag (ISR_INT0 s) = 1 /\
  serbuf (ISR_INT0 s) = serbuf s /\
  (forall l, l <> count -> l <> PORTD -> l <> eventflag ->
             ld l (ISR_INT0 s) = ld l s).
Proof.
  intros Hwf.
  pose proof (wf_u8 s PORTD Hwf eq_refl) as HD.
  pose proof (proj2 Hwf count) as Hc. cbn [width] in Hc.
  split; [|split; [|split; [|split; [|split; [|split]]]]].
  - unfold ISR_INT0, UINT64_MAX.
    destruct (Z.ltb_spec (ld count s) (2 ^ 64 - 1)) as [Hlt|Hge];
      unfold ld in *; cbn [store mem trace loc_eqb delay_us];
      unfold wrap; cbn [width];
      rewrite (u8_lor _ (_BV PD6) HD eq_refl);
      rewrite (clear_after_set _ PD6 ltac:(unfold PD6; lia));
      rewrite (u8_land _ (Z.lnot (_BV PD6)) HD).
    + rewrite (Z.mod_small (mem s count + 1)) by lia.
      rewrite <- !app_assoc. reflexivity.
    + rewrite <- !app_assoc. reflexivity.
  - apply testbit_set. unfold PD6. lia.
  - rewrite ISR_INT0_PORTD by exact Hwf. apply testbit_clear. unfold PD6. lia.
  - intros n Hn. rewrite ISR_INT0_PORTD by exact Hwf.
    apply testbit_clear_other; [unfold PD6; lia | exact Hn].
  - unfold ISR_INT0. rewrite ld_store_same. reflexivity.
  - unfold ISR_INT0. destruct (ld count s <? UINT64_MAX); reflexivity.
  - intros l H1 H2 H3. apply ISR_INT0_ld; assumption.
Qed.

Lemma ISR_INT0_pulse_witness :
  trace (ISR_INT0 init_state) =
    trace init_state
    ++ [EvStore count 1; EvStore PORTD 72; EvDelay 100; EvStore PORTD 8;
        EvStore eventflag 1].
Proof.
  exact (proj1 (ISR_INT0_pulse init_state wf_init_state)).
Defined.

(** ** Button handler *)

Lemma ISR_INT1_ld pind l s :
  l <> feedback_mode -> l <> EIFR -> ld l (ISR_INT1 pind s) = ld l s.
Proof.
  intros H1 H2. unfold ISR_INT1.
  destruct (Z.land (pind 25000) (_BV PD3) =? 0);
    rewrite ?ld_store_other by congruence; reflexivity.
Qed.

(** X2. The button handler always waits 25 ms first and always ends by
    writing INTF1 to EIFR; in between it stores the incremented mode
    exactly when PD3 reads low at the sample.  It writes nothing but
    [feedback_mode] and EIFR, and two pin histories that agree on PD3 at
    the sample give the same result: bounce during the wait and the other
    pins of the port are not looked at. *)
Theorem ISR_INT1_effects (pind : Z -> Z) (s : state) :
  wf_state s ->
  trace (ISR_INT1 pind s) =
    trace s
    ++ [EvDelay 25000]
    ++ (if Z.testbit (pind 25000) PD3 then []
        else [EvStore feedback_mode ((ld feedback_mode s + 1) mod 256)])
    ++ [EvStore EIFR (Z.lor (ld EIFR s) (_BV INTF1))] /\
  Z.testbit (ld EIFR (ISR_INT1 pind s)) INTF1 = true /\
  serbuf (ISR_INT1 pind s) = serbuf s /\
  (forall l, l <> feedback_mode -> l <> EIFR -> ld l (ISR_INT1 pind s) = ld l s) /\
  (forall pind',
      Z.testbit (pind' 25000) PD3 = Z.testbit (pind 25000) PD3 ->
      ISR_INT1 pind' s = ISR_INT1 pind s).
Proof.
  intros Hwf. pose proof (wf_u8 s EIFR Hwf eq_refl) as HE.
  pose proof (u8_lor _ (_BV INTF1) HE eq_refl) as HEon.
  split; [|split; [|split; [|split]]].
  - unfold ISR_INT1. rewrite land_BV_testbit by (unfold PD3; lia).
    destruct (Z.testbit (pind 25000) PD3); cbn [negb];
      unfold ld in *; cbn [store mem trace loc_eqb delay_ms delay_us];
      unfold wrap; cbn [width]; rewrite HEon;
      rewrite <- ?app_assoc; reflexivity.
  - unfold ISR_INT1. rewrite ld_store_same. unfold wrap. cbn [width].
    destruct (Z.land (pind 25000) (_BV PD3) =? 0);
      rewrite ?ld_store_other by congruence;
      change (ld EIFR (delay_ms 25 s)) with (ld EIFR s);
      rewrite HEon; apply testbit_set; unfold INTF1; lia.
  - unfold ISR_INT1. destruct (Z.land (pind 25000) (_BV PD3) =? 0); reflexivity.
  - intros l H1 H2. apply ISR_INT1_ld; assumption.
  - intros pind' Hsame. unfold ISR_INT1.
    rewrite !land_BV_testbit by (unfold PD3; lia). rewrite Hsame. reflexivity.
Qed.

Lemma ISR_INT1_effects_witness :
  trace (ISR_INT1 (fun t => if t <? 20000 then 8 else 0) init_state) =
    trace init_state
    ++ [EvDelay 25000; EvStore feedback_mode 1; EvStore EIFR 128].
Proof.
  exact (proj1 (ISR_INT1_effects (fun t => if t <? 20000 then 8 else 0)
                  init_state wf_init_state)).
Defined.

(** ** Serial transmitter *)

Lemma uart_putchar_ld c l s : l <> UDR -> ld l (uart_putchar c s) = ld l s.
Proof.
  intros Hl. rewrite uart_putchar_eq. destruct (Z.eqb_spec c 10) as [->|Hc].
  - rewrite uart_putchar_plain by lia. rewrite !ld_store_other by congruence.
    reflexivity.
  - apply ld_store_other. congruence.
Qed.

Lemma uart_putchar_serbuf c s : serbuf (uart_putchar c s) = serbuf s.
Proof.
  rewrite uart_putchar_eq. destruct (Z.eqb_spec c 10) as [->|Hc].
  - rewrite uart_putchar_plain by lia. reflexivity.
  - reflexivity.
Qed.

Lemma uart_putchar_trace c s :
  0 <= c < 256 ->
  trace (uart_putchar c s) = trace s ++ map (EvStore UDR) (tx_of_char c).
Proof.
  intros Hc. unfold tx_of_char. destruct (Z.eqb_spec c 10) as [->|Hne].
  - rewrite uart_putchar_newline. cbn [store trace].
    rewrite <- app_assoc. reflexivity.
  - rewrite uart_putchar_plain by exact Hne. cbn [store trace].
    unfold wrap. cbn [width]. change (2 ^ 8) with 256.
    rewrite Z.mod_small by lia. reflexivity.
Qed.

(** X3. [uart_putchar] hands one byte to the UART, preceded by a carriage
    return when the byte is a line feed; the recursion stops after that
    one extra call.  UDR is the only location written. *)
Theorem uart_putchar_effects (c : Z) (s : state) :
  0 <= c < 256 ->
  trace (uart_putchar c s) = trace s ++ map (EvStore UDR) (tx_of_char c) /\
  uart_tx (trace (uart_putchar c s)) =
    uart_tx (trace s) ++ (if c =? 10 then [13; 10] else [c]) /\
  ld UDR (uart_putchar c s) = c /\
  serbuf (uart_putchar c s) = serbuf s /\
  (forall l, l <> UDR -> ld l (uart_putchar c s) = ld l s).
Proof.
  intros Hc. split; [|split; [|split; [|split]]].
  - apply uart_putchar_trace. exact Hc.
  - rewrite uart_putchar_trace by exact Hc.
    rewrite uart_tx_app, uart_tx_stores. reflexivity.
  - rewrite uart_putchar_eq. destruct (c =? 10); rewrite ld_store_same;
      unfold wrap; cbn [width]; change (2 ^ 8) with 256; apply Z.mod_small; exact Hc.
  - apply uart_putchar_serbuf.
  - intros l Hl. apply uart_putchar_ld. exact Hl.
Qed.

Lemma uart_putchar_effects_witness :
  uart_tx (trace (uart_putchar 10 init_state)) = uart_tx (trace init_state) ++ [13; 10] /\
  uart_tx (trace (uart_putchar 65 init_state)) = uart_tx (trace init_state) ++ [65].
Proof.
  split.
  - exact (proj1 (proj2 (uart_putchar_effects 10 init_state ltac:(lia)))).
  - exact (proj1 (proj2 (uart_putchar_effects 65 init_state ltac:(lia)))).
Defined.

Lemma uart_putstring_ld buf l s s' :
  uart_putstring buf s = Some s' -> l <> UDR -> ld l s' = ld l s.
Proof.
  revert s. induction buf as [|c rest IH]; intros s Hrun Hl; simpl in Hrun.
  - discriminate.
  - destruct (c =? 0).
    + injection Hrun as <-. reflexivity.
    + rewrite (IH _ Hrun Hl). apply uart_putchar_ld. exact Hl.
Qed.

Lemma uart_putstring_serbuf buf s s' :
  uart_putstring buf s = Some s' -> serbuf s' = serbuf s.
Proof.
  revert s. induction buf as [|c rest IH]; intros s Hrun; simpl in Hrun.
  - discriminate.
  - destruct (c =? 0).
    + injection Hrun as <-. reflexivity.
    + rewrite (IH _ Hrun). apply uart_putchar_serbuf.
Qed.

Lemma uart_putstring_prefix pre rest s :
  Forall (fun c => 0 < c < 256) pre ->
  exists s',
    uart_putstring (pre ++ 0 :: rest) s = Some s' /\
    trace s' = trace s ++ map (EvStore UDR) (expand_newlines pre).
Proof.
  intros Hpre. revert s. induction Hpre as [|c pre Hc _ IH]; intros s.
  - exists s. split; [reflexivity|]. simpl. rewrite app_nil_r. reflexivity.
  - destruct (IH (uart_putchar c s)) as [s' [Hrun Htr]].
    exists s'. split.
    + simpl. destruct (Z.eqb_spec c 0); [lia | exact Hrun].
    + rewrite Htr, uart_putchar_trace by lia.
      cbn [expand_newlines flat_map]. fold (expand_newlines pre).
      rewrite map_app, <- app_assoc. reflexivity.
Qed.

Lemma length_expand_newlines cs :
  (length cs <= length (expand_newlines cs) <= 2 * length cs)%nat.
Proof.
  induction cs as [|c cs IH]; simpl; [lia|].
  rewrite length_app. fold (expand_newlines cs).
  unfold tx_of_char. destruct (c =? 10); simpl; lia.
Qed.

(** X4. On a buffer that holds the characters [pre], a NUL, and anything
    after it, [uart_putstring] returns having sent exactly [pre] with each
    line feed turned into CR LF (so between one and two bytes per
    character); nothing behind the NUL is sent, and only UDR is written. *)
Theorem uart_putstring_sends (pre rest : list Z) (s : state) :
  Forall (fun c => 0 < c < 256) pre ->
  exists s',
    uart_putstring (pre ++ 0 :: rest) s = Some s' /\
    trace s' = trace s ++ map (EvStore UDR) (expand_newlines pre) /\
    uart_tx (trace s') = uart_tx (trace s) ++ expand_newlines pre /\
    (length pre <= length (expand_newlines pre) <= 2 * length pre)%nat /\
    serbuf s' = serbuf s /\
    (forall l, l <> UDR -> ld l s' = ld l s).
Proof.
  intros Hpre. destruct (uart_putstring_prefix pre rest s Hpre) as [s' [Hrun Htr]].
  exists s'. split; [exact Hrun|]. split; [exact Htr|].
  split; [rewrite Htr, uart_tx_app, uart_tx_stores; reflexivity|].
  split; [apply length_expand_newlines|].
  split; [eapply uart_putstring_serbuf; exact Hrun|].
  intros l Hl. eapply uart_putstring_ld; eassumption.
Qed.

Lemma uart_putstring_sends_witness :
  exists s',
    uart_putstring (chars "ab" ++ [10] ++ 0 :: chars "zz") power_on = Some s' /\
    uart_tx (trace s') = [97; 98; 13; 10].
Proof.
  destruct (uart_putstring_sends [97; 98; 10] (chars "zz") power_on)
    as (s' & Hrun & _ & Htx & _).
  - repeat constructor.
  - exists s'. split; [exact Hrun | exact Htx].
Defined.

(** X5. [uart_putstring] runs off the end of the array exactly when the array
    holds no NUL. *)
Theorem uart_putstring_fault_iff (buffer : list Z) (s : state) :
  uart_putstring buffer s = None <-> ~ In 0 buffer.
Proof.
  revert s. induction buffer as [|c rest IH]; intros s; simpl.
  - split; [intros _ [] | reflexivity].
  - destruct (Z.eqb_spec c 0) as [->|Hc].
    + split; [discriminate | intros Hn; exfalso; apply Hn; left; reflexivity].
    + rewrite IH. split.
      * intros Hn [Heq|Hin]; [congruence | contradiction].
      * intros Hn Hin. apply Hn. right. exact Hin.
Qed.

(** ** Hex encoder: digit positions and injectivity *)

Lemma hex_digits_lookup n x i :
  (i < n)%nat ->
  hex_digits n x !! i = Some (hexdigit (Z.shiftr x (4 * Z.of_nat (n - 1 - i)))).
Proof.
  revert x i. induction n as [|n IH]; intros x i Hi; [lia|].
  simpl hex_digits. destruct (Nat.eq_dec i n) as [->|Hne].
  - rewrite lookup_app_r by (rewrite length_hex_digits; lia).
    rewrite length_hex_digits. replace (n - n)%nat with 0%nat by lia.
    replace (S n - 1 - n)%nat with 0%nat by lia. reflexivity.
  - rewrite lookup_app_l by (rewrite length_hex_digits; lia).
    rewrite IH by lia. rewrite Z.shiftr_shiftr by lia.
    do 3 f_equal. lia.
Qed.

(** X6. The character at index [i] of the text encodes the nibble of [x] at
    bit 4*(15-i): the most significant digit comes first, and index 16
    holds the NUL. *)
Theorem hexu64_digit_at (x : Z) (buf buf' : list Z) (i : nat) :
  length buf = Z.to_nat SER_BUFF_LEN ->
  hexu64 x buf = Some buf' ->
  (i < 16)%nat ->
  (exists c, buf' !! i = Some c /\
             hexval c = Some (Z.shiftr x (4 * (15 - Z.of_nat i)) mod 16)) /\
  buf' !! 16%nat = Some 0.
Proof.
  change (Z.to_nat SER_BUFF_LEN) with 17%nat. intros Hlen Hrun Hi.
  rewrite hexu64_result in Hrun by lia. rewrite (drop_ge buf 17) in Hrun by lia.
  assert (Hb : buf' = hex_digits 16 x ++ [0]) by congruence. subst buf'. clear Hrun. split.
  - exists (hexdigit (Z.shiftr x (4 * (15 - Z.of_nat i)))). split.
    + rewrite lookup_app_l by (rewrite length_hex_digits; exact Hi).
      rewrite hex_digits_lookup by exact Hi. do 3 f_equal. lia.
    + apply hexval_hexdigit.
  - rewrite lookup_app_r by (rewrite length_hex_digits; lia).
    rewrite length_hex_digits. reflexivity.
Qed.

Lemma hexu64_digit_at_witness :
  (exists c, [48; 48; 48; 48; 48; 48; 48; 48; 48; 48; 48; 48; 49; 50; 65; 66; 0] !! 14%nat
             = Some c /\
             hexval c = Some (Z.shiftr 4779 (4 * (15 - Z.of_nat 14)) mod 16)) /\
  [48; 48; 48; 48; 48; 48; 48; 48; 48; 48; 48; 48; 49; 50; 65; 66; 0] !! 16%nat = Some 0.
Proof.
  apply (hexu64_digit_at 4779 (repeat 0 17)).
  - reflexivity.
  - reflexivity.
  - lia.
Defined.

(** X7. Two counter values that print the same text are equal. *)
Theorem hexu64_injective (x y : Z) (bx by_ out : list Z) :
  0 <= x <= UINT64_MAX ->
  0 <= y <= UINT64_MAX ->
  hexu64 x bx = Some out ->
  hexu64 y by_ = Some out ->
  x = y.
Proof.
  unfold UINT64_MAX. intros Hx Hy Hrx Hry.
  assert (Hlx : (17 <= length bx)%nat).
  { destruct (Nat.le_gt_cases 17 (length bx)) as [H|H]; [exact H|].
    rewrite hexu64_short in Hrx by lia. discriminate. }
  assert (Hly : (17 <= length by_)%nat).
  { destruct (Nat.le_gt_cases 17 (length by_)) as [H|H]; [exact H|].
    rewrite hexu64_short in Hry by lia. discriminate. }
  rewrite hexu64_result in Hrx, Hry by assumption.
  assert (Heq : hex_digits 16 x ++ 0 :: drop 17 bx = hex_digits 16 y ++ 0 :: drop 17 by_)
    by congruence.
  apply app_inj_1 in Heq; [|rewrite !length_hex_digits; reflexivity].
  destruct Heq as [Heq _].
  assert (Hp : parse_hex (hex_digits 16 x) = parse_hex (hex_digits 16 y))
    by (rewrite Heq; reflexivity).
  rewrite !parse_hex_digits in Hp by lia.
  change (16 ^ Z.of_nat 16) with (2 ^ 64) in Hp.
  rewrite !Z.mod_small in Hp by lia. congruence.
Qed.

Lemma hexu64_injective_witness : 255 = 255.
Proof.
  apply (hexu64_injective 255 255 (repeat 0 17) (repeat 9 17)
           (chars "00000000000000FF" ++ [0])).
  - unfold UINT64_MAX. lia.
  - unfold UINT64_MAX. lia.
  - reflexivity.
  - reflexivity.
Defined.

(** ** Flags after a call *)

Lemma checkevent_flag s : ld eventflag (checkevent s) = 0.
Proof.
  destruct (Z.eq_dec (ld eventflag s) 0) as [Hf|Hf].
  - unfold checkevent. rewrite Hf. exact Hf.
  - rewrite (checkevent_active s Hf). cbv zeta.
    rewrite !ld_store_other by congruence. rewrite ld_delay_ms.
    destruct (Z.testbit (ld feedback_mode s) 0);
      destruct (Z.testbit (ld feedback_mode s) 1); reflexivity.
Qed.

Lemma sendreport_tick s s' : sendreport s = Some s' -> ld tick s' = 0.
Proof.
  unfold sendreport. destruct (Z.eqb_spec (ld tick s) 0) as [Ht|Ht]; cbn [negb].
  - intros [= <-]. exact Ht.
  - destruct (hexu64 (ld count (store tick 0 s)) (serbuf (store tick 0 s)))
      as [buf|]; [|discriminate].
    destruct (uart_putstring (serbuf (set_serbuf buf (store tick 0 s)))
                (set_serbuf buf (store tick 0 s))) as [s2|] eqn:Hput; [|discriminate].
    intros [= <-]. rewrite uart_putchar_ld by congruence.
    rewrite (uart_putstring_ld _ tick _ _ Hput) by congruence. reflexivity.
Qed.

(** X10. [sendreport] faults exactly when a report is due and [serbuf] is
    shorter than 17 bytes; with the declared 17 bytes it always returns. *)
Theorem sendreport_fault_iff (s : state) :
  sendreport s = None <->
  ld tick s <> 0 /\ (length (serbuf s) < Z.to_nat SER_BUFF_LEN)%nat.
Proof.
  change (Z.to_nat SER_BUFF_LEN) with 17%nat.
  unfold sendreport. destruct (Z.eqb_spec (ld tick s) 0) as [Ht|Ht]; cbn [negb].
  - split; [discriminate | intros [Hn _]; contradiction].
  - change (serbuf (store tick 0 s)) with (serbuf s).
    destruct (Nat.le_gt_cases 17 (length (serbuf s))) as [Hlen|Hlen].
    + rewrite hexu64_result by exact Hlen. cbn [set_serbuf serbuf].
      rewrite uart_putstring_text by apply Forall_hex_digits.
      split; [discriminate | intros [_ Hs]; lia].
    + rewrite hexu64_short by lia. split; [intros _; split; [exact Ht | lia] | reflexivity].
Qed.

(** ** Whole runs: counter and mode *)

Lemma checkevent_ld l s :
  l <> eventflag -> l <> PORTB -> l <> TCCR0A -> l <> TCCR0B -> l <> OCR0A ->
  ld l (checkevent s) = ld l s.
Proof.
  intros H1 H2 H3 H4 H5. destruct (Z.eq_dec (ld eventflag s) 0) as [Hf|Hf].
  - unfold checkevent. rewrite Hf. reflexivity.
  - rewrite (checkevent_active s Hf). cbv zeta.
    rewrite !ld_store_other by congruence. rewrite ld_delay_ms.
    destruct (Z.testbit (ld feedback_mode s) 0);
      destruct (Z.testbit (ld feedback_mode s) 1);
      rewrite ?ld_store_other by congruence; reflexivity.
Qed.

Lemma sendreport_ld l s s' :
  sendreport s = Some s' -> l <> tick -> l <> UDR -> ld l s' = ld l s.
Proof.
  unfold sendreport. destruct (Z.eqb_spec (ld tick s) 0) as [Ht|Ht]; cbn [negb].
  - intros [= <-] _ _. reflexivity.
  - destruct (hexu64 (ld count (store tick 0 s)) (serbuf (store tick 0 s)))
      as [buf|]; [|discriminate].
    destruct (uart_putstring (serbuf (set_serbuf buf (store tick 0 s)))
                (set_serbuf buf (store tick 0 s))) as [s2|] eqn:Hput; [|discriminate].
    intros [= <-] H1 H2. rewrite uart_putchar_ld by congruence.
    rewrite (uart_putstring_ld _ l _ _ Hput) by congruence.
    change (ld l (set_serbuf buf (store tick 0 s))) with (ld l (store tick 0 s)).
    apply ld_store_other. congruence.
Qed.

Lemma step_count c l c' :
  step c l c' ->
  ld count (snd c') =
  match l with
  | LIrq IrqINT0 =>
      if ld count (snd c) <? UINT64_MAX
      then (ld count (snd c) + 1) mod 2 ^ 64 else ld count (snd c)
  | _ => ld count (snd c)
  end.
Proof.
  intros Hstep.
  destruct Hstep as [s | i s | s | s s' Hrep | s | p i s Hp]; cbn [snd].
  - reflexivity.
  - destruct i; cbn [run_isr].
    + apply ISR_INT0_count.
    + apply ISR_INT1_ld; congruence.
    + apply ld_store_other. congruence.
  - apply checkevent_ld; congruence.
  - apply (sendreport_ld count _ _ Hrep); congruence.
  - apply checkevent_ld; congruence.
  - destruct i; cbn [run_isr].
    + apply ISR_INT0_count.
    + apply ISR_INT1_ld; congruence.
    + apply ld_store_other. congruence.
Qed.

(** X11. However the handlers and the main loop interleave, the counter is the
    number of detector interrupts taken so far added to its starting
    value, clamped at UINT64_MAX: nothing but [ISR_INT0] moves it, and no
    pulse is lost or counted twice. *)
Theorem exec_count (c c' : config) (ls : list label) :
  exec c ls c' ->
  wf_state (snd c) ->
  ld count (snd c') =
  Z.min (ld count (snd c) + Z.of_nat (count_INT0 ls)) UINT64_MAX.
Proof.
  induction 1 as [c | c l c1 ls c2 Hstep _ IH]; intros Hwf.
  - pose proof (proj2 Hwf count) as Hc. cbn [width] in Hc.
    simpl. unfold UINT64_MAX. lia.
  - rewrite IH by (eapply step_wf; eassumption).
    rewrite (step_count _ _ _ Hstep).
    pose proof (proj2 Hwf count) as Hc. cbn [width] in Hc.
    unfold UINT64_MAX.
    destruct l as [[| pind |]| r]; cbn [count_INT0]; try reflexivity.
    destruct (Z.ltb_spec (ld count (snd c)) (2 ^ 64 - 1)).
    + rewrite Z.mod_small by lia. lia.
    + lia.
Qed.

Lemma exec_count_witness :
  ld count (ISR_INT0 (checkevent (ISR_INT0 (ISR_TIMER1_COMPA init_state)))) =
  Z.min (ld count init_state + Z.of_nat 2) UINT64_MAX.
Proof.
  refine (exec_count (AtSleepEnter, init_state)
            (AtReport, ISR_INT0 (checkevent (ISR_INT0 (ISR_TIMER1_COMPA init_state))))
            [LCall Rsleep_cpu; LIrq IrqTIMER1; LIrq IrqINT0; LCall Rcheckevent; LIrq IrqINT0]
            _ wf_init_state).
  eapply exec_cons; [apply step_sleep|].
  eapply exec_cons; [apply (step_wake IrqTIMER1)|].
  eapply exec_cons; [apply (step_irq AtCheck1 IrqINT0); discriminate|].
  eapply exec_cons; [apply step_check1|].
  eapply exec_cons; [apply (step_irq AtReport IrqINT0); discriminate|].
  apply exec_nil.
Defined.

Lemma step_mode c l c' :
  step c l c' ->
  ld feedback_mode (snd c') =
  match l with
  | LIrq (IrqINT1 pind) =>
      if Z.testbit (pind 25000) PD3 then ld feedback_mode (snd c)
      else (ld feedback_mode (snd c) + 1) mod 2 ^ 8
  | _ => ld feedback_mode (snd c)
  end.
Proof.
  intros Hstep.
  destruct Hstep as [s | i s | s | s s' Hrep | s | p i s Hp]; cbn [snd].
  - reflexivity.
  - destruct i; cbn [run_isr].
    + apply ISR_INT0_ld; congruence.
    + apply ISR_INT1_mode.
    + apply ld_store_other. congruence.
  - apply checkevent_mode.
  - apply (sendreport_ld feedback_mode _ _ Hrep); congruence.
  - apply checkevent_mode.
  - destruct i; cbn [run_isr].
    + apply ISR_INT0_ld; congruence.
    + apply ISR_INT1_mode.
    + apply ld_store_other. congruence.
Qed.

(** X12. Over any run, Feedback Mode is its starting value plus the number of
    debounced presses, modulo 256; pulses, ticks, reports and feedback
    never change it. *)
Theorem exec_mode (c c' : config) (ls : list label) :
  exec c ls c' ->
  wf_state (snd c) ->
  ld feedback_mode (snd c') =
  (ld feedback_mode (snd c) + Z.of_nat (count_presses ls)) mod 256.
Proof.
  induction 1 as [c | c l c1 ls c2 Hstep _ IH]; intros Hwf.
  - pose proof (proj2 Hwf feedback_mode) as Hm. cbn [width] in Hm.
    simpl. rewrite Z.add_0_r, Z.mod_small by lia. reflexivity.
  - rewrite IH by (eapply step_wf; eassumption).
    rewrite (step_mode _ _ _ Hstep).
    destruct l as [[| pind |]| r]; cbn [count_presses]; try reflexivity.
    destruct (Z.testbit (pind 25000) PD3); [reflexivity|].
    change (2 ^ 8) with 256. rewrite Z.add_mod_idemp_l by lia.
    f_equal. lia.
Qed.

Lemma exec_mode_witness :
  ld feedback_mode (ISR_INT1 (fun _ => 8) (ISR_INT1 (fun _ => 0) init_state)) =
  (ld feedback_mode init_state + Z.of_nat 1) mod 256.
Proof.
  refine (exec_mode (AtSleepEnter, init_state)
            (AtSleepEnter, ISR_INT1 (fun _ => 8) (ISR_INT1 (fun _ => 0) init_state))
            [LIrq (IrqINT1 (fun _ => 0)); LIrq (IrqINT1 (fun _ => 8))]
            _ wf_init_state).
  eapply exec_cons; [apply (step_irq AtSleepEnter (IrqINT1 (fun _ => 0))); discriminate|].
  eapply exec_cons; [apply (step_irq AtSleepEnter (IrqINT1 (fun _ => 8))); discriminate|].
  apply exec_nil.
Defined.

(** ** Whole runs: outputs at rest *)

Lemma testbit_u8_clear v k :
  0 <= k -> Z.testbit (Z.land v (Z.lnot (_BV k)) mod 2 ^ 8) k = false.
Proof.
  intros Hk. rewrite <- Z.land_ones, <- Z.land_assoc by lia.
  rewrite (Z.land_comm (Z.lnot _)), Z.land_assoc.
  apply testbit_clear. exact Hk.
Qed.

Lemma checkevent_outputs_off s :
  ld eventflag s <> 0 ->
  Z.testbit (ld PORTB (checkevent s)) PB4 = false /\ ld TCCR0B (checkevent s) = 0.
Proof.
  intros Hf. rewrite (checkevent_active s Hf). cbv zeta. split.
  - rewrite !ld_store_other by congruence. rewrite ld_store_same.
    unfold wrap. cbn [width]. apply testbit_u8_clear. unfold PB4. lia.
  - rewrite ld_store_other by congruence. rewrite ld_store_same. reflexivity.
Qed.

Lemma checkevent_idle s : outputs_idle s -> outputs_idle (checkevent s).
Proof.
  intros (HB & HT & H6 & H3).
  unfold outputs_idle. rewrite (checkevent_ld PORTD) by congruence.
  destruct (Z.eq_dec (ld eventflag s) 0) as [Hf|Hf].
  - unfold checkevent. rewrite Hf. cbn [Z.eqb negb]. auto.
  - destruct (checkevent_outputs_off s Hf) as [HB' HT']. auto.
Qed.

Lemma run_isr_idle i s : wf_state s -> outputs_idle s -> outputs_idle (run_isr i s).
Proof.
  intros Hwf (HB & HT & H6 & H3). destruct i; cbn [run_isr]; unfold outputs_idle.
  - rewrite !(ISR_INT0_ld) by congruence. rewrite ISR_INT0_PORTD by exact Hwf.
    split; [exact HB|]. split; [exact HT|]. split.
    + apply testbit_clear. unfold PD6. lia.
    + rewrite testbit_clear_other by (unfold PD6, PD3; lia). exact H3.
  - rewrite !(ISR_INT1_ld) by congruence. auto.
  - unfold ISR_TIMER1_COMPA. rewrite !ld_store_other by congruence. auto.
Qed.

Lemma step_idle c l c' :
  step c l c' -> wf_state (snd c) -> outputs_idle (snd c) -> outputs_idle (snd c').
Proof.
  intros Hstep.
  destruct Hstep as [s | i s | s | s s' Hrep | s | p i s Hp]; cbn [snd]; intros Hwf Hidle.
  - exact Hidle.
  - apply run_isr_idle; assumption.
  - apply checkevent_idle; assumption.
  - destruct Hidle as (HB & HT & H6 & H3). unfold outputs_idle.
    rewrite !(sendreport_ld _ _ _ Hrep) by congruence. auto.
  - apply checkevent_idle; assumption.
  - apply run_isr_idle; assumption.
Qed.

(** X13. Between the routines of the main loop and the handlers, at every
    point of every run from startup: the LED is off, Timer0 is stopped (no
    tone), the PULSE output is low, and the button pull-up is still on.
    No routine returns leaving an output asserted. *)
Theorem reachable_outputs_idle (ls : list label) (c : config) :
  exec (AtSleepEnter, init_state) ls c -> outputs_idle (snd c).
Proof.
  intros Hex.
  assert (Hgen : forall c0 ls0 c1, exec c0 ls0 c1 ->
                   wf_state (snd c0) -> outputs_idle (snd c0) -> outputs_idle (snd c1)).
  { induction 1 as [c0 | c0 l c1 ls0 c2 Hstep _ IH]; intros Hwf Hidle; [exact Hidle|].
    apply IH; [eapply step_wf | eapply step_idle]; eassumption. }
  apply (Hgen _ _ _ Hex wf_init_state).
  repeat split; reflexivity.
Qed.

Lemma reachable_outputs_idle_witness :
  outputs_idle (checkevent (ISR_INT0 init_state)).
Proof.
  refine (reachable_outputs_idle
            [LCall Rsleep_cpu; LIrq IrqINT0; LCall Rcheckevent]
            (AtReport, checkevent (ISR_INT0 init_state)) _).
  eapply exec_cons; [apply step_sleep|].
  eapply exec_cons; [apply (step_wake IrqINT0)|].
  eapply exec_cons; [apply step_check1|].
  apply exec_nil.
Defined.

(** ** Whole runs: the serial stream *)

Lemma uart_tx_ISR_INT0 s : uart_tx (trace (ISR_INT0 s)) = uart_tx (trace s).
Proof.
  unfold ISR_INT0. destruct (ld count s <? UINT64_MAX);
    cbn [store delay_us trace]; rewrite !uart_tx_app; simpl;
    rewrite ?app_nil_r; reflexivity.
Qed.

Lemma uart_tx_ISR_INT1 pind s : uart_tx (trace (ISR_INT1 pind s)) = uart_tx (trace s).
Proof.
  unfold ISR_INT1. destruct (Z.land (pind 25000) (_BV PD3) =? 0);
    cbn [store delay_ms delay_us trace]; rewrite !uart_tx_app; simpl;
    rewrite ?app_nil_r; reflexivity.
Qed.

Lemma uart_tx_run_isr i s : uart_tx (trace (run_isr i s)) = uart_tx (trace s).
Proof.
  destruct i; cbn [run_isr].
  - apply uart_tx_ISR_INT0.
  - apply uart_tx_ISR_INT1.
  - unfold ISR_TIMER1_COMPA. cbn [store trace]. rewrite uart_tx_app. simpl.
    apply app_nil_r.
Qed.

Lemma uart_tx_checkevent s : uart_tx (trace (checkevent s)) = uart_tx (trace s).
Proof.
  destruct (Z.eq_dec (ld eventflag s) 0) as [Hf|Hf].
  - unfold checkevent. rewrite Hf. reflexivity.
  - rewrite (checkevent_active s Hf). cbv zeta.
    destruct (Z.testbit (ld feedback_mode s) 0);
      destruct (Z.testbit (ld feedback_mode s) 1);
      cbn [store delay_ms delay_us trace]; rewrite !uart_tx_app; simpl;
      rewrite ?app_nil_r; reflexivity.
Qed.

Lemma uart_tx_sendreport s s' :
  wf_state s -> sendreport s = Some s' ->
  uart_tx (trace s') =
  uart_tx (trace s) ++ (if ld tick s =? 0 then [] else report_line (ld count s)).
Proof.
  intros Hwf Hrun. destruct (Z.eqb_spec (ld tick s) 0) as [Ht|Ht].
  - unfold sendreport in Hrun. rewrite Ht in Hrun. injection Hrun as <-.
    rewrite app_nil_r. reflexivity.
  - assert (Hs' : s' = store UDR 10 (store UDR 13
                        (send_all (hex_digits 16 (ld count s))
                           (set_serbuf (hex_digits 16 (ld count s) ++ [0])
                              (store tick 0 s)))))
      by (rewrite (sendreport_active s Hwf Ht) in Hrun; congruence).
    subst s'. cbn [store trace]. rewrite send_all_trace by apply Forall_hex_digits.
    cbn [set_serbuf store trace]. rewrite !uart_tx_app, uart_tx_stores. simpl.
    unfold report_line. rewrite <- !app_assoc. reflexivity.
Qed.

Lemma length_report_line v : length (report_line v) = 18%nat.
Proof. unfold report_line. rewrite length_app, length_hex_digits. reflexivity. Qed.

Lemma length_concat_lines vs :
  length (concat (map report_line vs)) = (18 * length vs)%nat.
Proof.
  induction vs as [|v vs IH]; [reflexivity|].
  cbn [map concat]. rewrite length_app, length_report_line, IH. simpl. lia.
Qed.

(** What has been sent so far is a sequence of reports of 64-bit values,
    and there are no more reports, counting one still pending, than [n]
    timer interrupts. *)
Lemma step_stream c l c' n :
  step c l c' ->
  wf_state (snd c) ->
  (exists vs,
      uart_tx (trace (snd c)) = concat (map report_line vs) /\
      Forall (fun v => 0 <= v <= UINT64_MAX) vs /\
      (length vs + (if (ld tick (snd c) =? 0)%Z then 0 else 1) <= n)%nat) ->
  exists vs,
    uart_tx (trace (snd c')) = concat (map report_line vs) /\
    Forall (fun v => 0 <= v <= UINT64_MAX) vs /\
    (length vs + (if (ld tick (snd c') =? 0)%Z then 0 else 1)
     <= n + count_ticks [l])%nat.
Proof.
  intros Hstep Hwf (vs & Htx & Hrange & Hn).
  assert (Hirq : forall i s,
             uart_tx (trace s) = concat (map report_line vs) ->
             (length vs + (if (ld tick s =? 0)%Z then 0 else 1) <= n)%nat ->
             exists vs0,
               uart_tx (trace (run_isr i s)) = concat (map report_line vs0) /\
               Forall (fun v => 0 <= v <= UINT64_MAX) vs0 /\
               (length vs0 + (if (ld tick (run_isr i s) =? 0)%Z then 0 else 1)
                <= n + count_ticks [LIrq i])%nat).
  { intros i s Htx0 Hn0. exists vs.
    rewrite uart_tx_run_isr. split; [exact Htx0|]. split; [exact Hrange|].
    destruct i; cbn [run_isr count_ticks].
    - rewrite (ISR_INT0_ld tick) by congruence. lia.
    - rewrite (ISR_INT1_ld _ tick) by congruence. lia.
    - unfold ISR_TIMER1_COMPA. rewrite ld_store_same.
      change (wrap tick 1 =? 0) with false.
      destruct (ld tick s =? 0); lia. }
  destruct Hstep as [s | i s | s | s s' Hrep | s | p i s Hp]; cbn [snd] in *.
  - exists vs. cbn [count_ticks]. repeat split; try assumption. lia.
  - apply Hirq; assumption.
  - exists vs. rewrite uart_tx_checkevent, (checkevent_ld tick) by congruence.
    cbn [count_ticks]. repeat split; try assumption. lia.
  - rewrite (uart_tx_sendreport s s' Hwf Hrep).
    rewrite (sendreport_tick _ _ Hrep). cbn [count_ticks Z.eqb].
    destruct (Z.eqb_spec (ld tick s) 0) as [Ht|Ht]; cbv iota in *.
    + exists vs. rewrite app_nil_r. repeat split; try assumption. lia.
    + exists (vs ++ [ld count s]). split; [|split].
      * rewrite map_app, concat_app, Htx. cbn [map concat]. rewrite app_nil_r. reflexivity.
      * pose proof (proj2 Hwf count) as Hc. cbn [width] in Hc.
        apply Forall_app. split; [exact Hrange|].
        repeat constructor; unfold UINT64_MAX; lia.
      * rewrite length_app. simpl. lia.
  - exists vs. rewrite uart_tx_checkevent, (checkevent_ld tick) by congruence.
    cbn [count_ticks]. repeat split; try assumption. lia.
  - apply Hirq; assumption.
Qed.

Lemma exec_stream c ls c' n :
  exec c ls c' ->
  wf_state (snd c) ->
  (exists vs,
      uart_tx (trace (snd c)) = concat (map report_line vs) /\
      Forall (fun v => 0 <= v <= UINT64_MAX) vs /\
      (length vs + (if (ld tick (snd c) =? 0)%Z then 0 else 1) <= n)%nat) ->
  exists vs,
    uart_tx (trace (snd c')) = concat (map report_line vs) /\
    Forall (fun v => 0 <= v <= UINT64_MAX) vs /\
    (length vs + (if (ld tick (snd c') =? 0)%Z then 0 else 1)
     <= n + count_ticks ls)%nat.
Proof.
  intros Hex. revert n.
  induction Hex as [c | c l c1 ls c2 Hstep _ IH]; intros n Hwf Hinv.
  - simpl. rewrite Nat.add_0_r. exact Hinv.
  - pose proof (step_stream _ _ _ n Hstep Hwf Hinv) as H1.
    pose proof (IH _ (step_wf _ _ _ Hstep Hwf) H1) as (vs & Htx & Hr & Hn).
    exists vs. repeat split; try assumption.
    replace (count_ticks (l :: ls)) with (count_ticks [l] + count_ticks ls)%nat
      by (destruct l as [[| pind |]| r]; reflexivity).
    lia.
Qed.

Lemma init_stream :
  exists vs,
    uart_tx (trace init_state) = concat (map report_line vs) /\
    Forall (fun v => 0 <= v <= UINT64_MAX) vs /\
    (length vs + (if (ld tick init_state =? 0)%Z then 0 else 1) <= 0)%nat.
Proof. exists []. repeat split; try constructor. Qed.

Lemma report_line_format v :
  0 <= v <= UINT64_MAX ->
  exists digits,
    report_line v = digits ++ [13; 10] /\
    length digits = 16%nat /\
    Forall (fun c => is_hex_upper c = true) digits /\
    parse_hex digits = Some v.
Proof.
  intros Hv. exists (hex_digits 16 v). split; [reflexivity|].
  split; [apply length_hex_digits|]. split; [apply Forall_hex_digits|].
  rewrite parse_hex_digits by lia. f_equal. apply Z.mod_small.
  unfold UINT64_MAX in Hv. change (16 ^ Z.of_nat 16) with (2 ^ 64). lia.
Qed.

(** X14. Whenever the main loop stands between two of its routines,
    everything put on the serial line since startup is a whole number of
    18-byte reports, each of them 16 characters of 0-9A-F that spell a
    64-bit value, then CR and LF.  (Which value a report carries when a
    detector interrupt lands inside [sendreport] is not stated here.) *)
Theorem reachable_serial_stream (ls : list label) (c : config) :
  exec (AtSleepEnter, init_state) ls c ->
  exists vs,
    uart_tx (trace (snd c)) = concat (map report_line vs) /\
    length (uart_tx (trace (snd c))) = (18 * length vs)%nat /\
    Forall (fun v =>
              0 <= v <= UINT64_MAX /\
              exists digits,
                report_line v = digits ++ [13; 10] /\
                length digits = 16%nat /\
                Forall (fun c => is_hex_upper c = true) digits /\
                parse_hex digits = Some v) vs.
Proof.
  intros Hex.
  destruct (exec_stream _ _ _ 0%nat Hex wf_init_state init_stream)
    as (vs & Htx & Hr & _).
  exists vs. split; [exact Htx|]. split; [rewrite Htx; apply length_concat_lines|].
  eapply Forall_impl; [exact Hr|]. intros v Hv. cbv beta in Hv.
  split; [exact Hv | apply report_line_format; exact Hv].
Qed.

Lemma reachable_serial_stream_witness :
  exists s',
    sendreport (checkevent (ISR_TIMER1_COMPA (ISR_INT0 init_state))) = Some s' /\
    exists vs,
      uart_tx (trace s') = concat (map report_line vs) /\
      length (uart_tx (trace s')) = (18 * length vs)%nat /\
      Forall (fun v =>
                0 <= v <= UINT64_MAX /\
                exists digits,
                  report_line v = digits ++ [13; 10] /\
                  length digits = 16%nat /\
                  Forall (fun c => is_hex_upper c = true) digits /\
                  parse_hex digits = Some v) vs.
Proof.
  destruct (sendreport (checkevent (ISR_TIMER1_COMPA (ISR_INT0 init_state))))
    as [s'|] eqn:Hrep; [|vm_compute in Hrep; discriminate].
  exists s'. split; [reflexivity|].
  refine (reachable_serial_stream
            [LCall Rsleep_cpu; LIrq IrqINT0; LIrq IrqTIMER1; LCall Rcheckevent;
             LCall Rsendreport]
            (AtCheck2, s') _).
  eapply exec_cons; [apply step_sleep|].
  eapply exec_cons; [apply (step_wake IrqINT0)|].
  eapply exec_cons; [apply (step_irq AtCheck1 IrqTIMER1); discriminate|].
  eapply exec_cons; [apply step_check1|].
  eapply exec_cons; [apply step_report; exact Hrep|].
  apply exec_nil.
Defined.

(** X15. There is at most one report per timer interrupt: the bytes sent so
    far, plus the 18 of a report that is pending, never exceed 18 times
    the number of timer interrupts taken, and nothing at all is sent
    before the first one. *)
Theorem reports_bounded_by_ticks (ls : list label) (c : config) :
  exec (AtSleepEnter, init_state) ls c ->
  (length (uart_tx (trace (snd c)))
   + (if (ld tick (snd c) =? 0)%Z then 0 else 18) <= 18 * count_ticks ls)%nat /\
  (count_ticks ls = 0%nat -> uart_tx (trace (snd c)) = []).
Proof.
  intros Hex.
  destruct (exec_stream _ _ _ 0%nat Hex wf_init_state init_stream)
    as (vs & Htx & _ & Hn).
  assert (Hlen : length (uart_tx (trace (snd c))) = (18 * length vs)%nat)
    by (rewrite Htx; apply length_concat_lines).
  split.
  - rewrite Hlen. destruct (ld tick (snd c) =? 0); lia.
  - intros Hz. apply length_zero_iff_nil. rewrite Hlen.
    destruct (ld tick (snd c) =? 0); lia.
Qed.

Lemma reports_bounded_by_ticks_witness :
  (length (uart_tx (trace (checkevent (ISR_TIMER1_COMPA (ISR_INT0 init_state)))))
   + (if (ld tick (checkevent (ISR_TIMER1_COMPA (ISR_INT0 init_state))) =? 0)%Z
      then 0 else 18) <= 18 * 1)%nat.
Proof.
  refine (proj1 (reports_bounded_by_ticks
            [LCall Rsleep_cpu; LIrq IrqINT0; LIrq IrqTIMER1; LCall Rcheckevent]
            (AtReport, checkevent (ISR_TIMER1_COMPA (ISR_INT0 init_state))) _)).
  eapply exec_cons; [apply step_sleep|].
  eapply exec_cons; [apply (step_wake IrqINT0)|].
  eapply exec_cons; [apply (step_irq AtCheck1 IrqTIMER1); discriminate|].
  eapply exec_cons; [apply step_check1|].
  apply exec_nil.
Defined.

(** ** Whole runs: output pulses and feedback cycles *)

Lemma count_events_app p t1 t2 :
  count_events p (t1 ++ t2) = (count_events p t1 + count_events p t2)%nat.
Proof. unfold count_events. rewrite List.filter_app, length_app. reflexivity. Qed.

Lemma count_events_UDR p cs :
  (forall v, p (EvStore UDR v) = false) ->
  count_events p (map (EvStore UDR) cs) = 0%nat.
Proof.
  intros Hp. unfold count_events. induction cs as [|c cs IH]; simpl; [reflexivity|].
  rewrite Hp. exact IH.
Qed.

Lemma testbit_u8_set v k :
  0 <= k < 8 -> Z.testbit (Z.lor v (_BV k) mod 2 ^ 8) k = true.
Proof.
  intros Hk. rewrite Z.mod_pow2_bits_low by lia. apply testbit_set. lia.
Qed.

Lemma sendreport_trace s s' :
  wf_state s -> sendreport s = Some s' ->
  trace s' =
  trace s ++ (if ld tick s =? 0 then []
              else EvStore tick 0 :: map (EvStore UDR) (report_line (ld count s))).
Proof.
  intros Hwf Hrun. destruct (Z.eqb_spec (ld tick s) 0) as [Ht|Ht].
  - unfold sendreport in Hrun. rewrite Ht in Hrun.
    assert (s' = s) by (cbn [Z.eqb negb] in Hrun; congruence). subst s'.
    rewrite app_nil_r. reflexivity.
  - assert (Hs' : s' = store UDR 10 (store UDR 13
                        (send_all (hex_digits 16 (ld count s))
                           (set_serbuf (hex_digits 16 (ld count s) ++ [0])
                              (store tick 0 s)))))
      by (rewrite (sendreport_active s Hwf Ht) in Hrun; congruence).
    subst s'. cbn [store trace]. rewrite send_all_trace by apply Forall_hex_digits.
    cbn [set_serbuf store trace]. unfold report_line.
    rewrite map_app, <- !app_assoc. reflexivity.
Qed.

Lemma count_events_sendreport p s s' :
  (forall l v, l <> PORTD -> l <> eventflag -> p (EvStore l v) = false) ->
  wf_state s -> sendreport s = Some s' ->
  count_events p (trace s') = count_events p (trace s).
Proof.
  intros Hp Hwf Hrun. rewrite (sendreport_trace s s' Hwf Hrun).
  rewrite count_events_app. destruct (ld tick s =? 0); [apply Nat.add_0_r|].
  change (EvStore tick 0 :: ?l) with ([EvStore tick 0] ++ l).
  rewrite count_events_app, count_events_UDR by (intros; apply Hp; congruence).
  unfold count_events. simpl. rewrite Hp by congruence. simpl. lia.
Qed.

Lemma pulses_ISR_INT0 s :
  count_events is_pulse_high (trace (ISR_INT0 s)) =
  S (count_events is_pulse_high (trace s)).
Proof.
  unfold ISR_INT0. destruct (ld count s <? UINT64_MAX);
    cbn [store delay_us trace]; rewrite !count_events_app;
    unfold count_events; cbn [List.filter is_pulse_high length];
    unfold wrap; cbn [width];
    rewrite testbit_u8_set by (unfold PD6; lia);
    rewrite testbit_u8_clear by (unfold PD6; lia);
    cbn [length]; lia.
Qed.

Lemma pulses_ISR_INT1 pind s :
  count_events is_pulse_high (trace (ISR_INT1 pind s)) =
  count_events is_pulse_high (trace s).
Proof.
  unfold ISR_INT1. destruct (Z.land (pind 25000) (_BV PD3) =? 0);
    cbn [store delay_ms delay_us trace]; rewrite !count_events_app;
    unfold count_events; cbn [List.filter is_pulse_high length]; lia.
Qed.

Lemma pulses_checkevent s :
  count_events is_pulse_high (trace (checkevent s)) =
  count_events is_pulse_high (trace s).
Proof.
  destruct (Z.eq_dec (ld eventflag s) 0) as [Hf|Hf].
  - unfold checkevent. rewrite Hf. reflexivity.
  - rewrite (checkevent_active s Hf). cbv zeta.
    destruct (Z.testbit (ld feedback_mode s) 0);
      destruct (Z.testbit (ld feedback_mode s) 1);
      cbn [store delay_ms delay_us trace]; rewrite !count_events_app;
      unfold count_events; cbn [List.filter is_pulse_high length]; lia.
Qed.

Lemma step_pulses c l c' :
  step c l c' -> wf_state (snd c) ->
  count_events is_pulse_high (trace (snd c')) =
  (count_events is_pulse_high (trace (snd c)) + count_INT0 [l])%nat.
Proof.
  intros Hstep Hwf.
  assert (Hirq : forall i s,
             count_events is_pulse_high (trace (run_isr i s)) =
             (count_events is_pulse_high (trace s) + count_INT0 [LIrq i])%nat).
  { intros i s. destruct i; cbn [run_isr count_INT0].
    - rewrite pulses_ISR_INT0. lia.
    - rewrite pulses_ISR_INT1. lia.
    - unfold ISR_TIMER1_COMPA. cbn [store trace]. rewrite count_events_app.
      unfold count_events. cbn [List.filter is_pulse_high length]. lia. }
  destruct Hstep as [s | i s | s | s s' Hrep | s | p i s Hp]; cbn [snd] in *;
    try apply Hirq; cbn [count_INT0]; rewrite ?Nat.add_0_r.
  - reflexivity.
  - apply pulses_checkevent.
  - apply (count_events_sendreport is_pulse_high s s'); try assumption.
    intros l v H1 H2. destruct l; try reflexivity; contradiction.
  - apply pulses_checkevent.
Qed.

(** X16. The PULSE output is raised once for every detector interrupt and at
    no other time: over any run from startup, the number of stores that
    set PD6 equals the number of detector interrupts taken, also once the
    counter has saturated. *)
Theorem pulse_output_count (ls : list label) (c : config) :
  exec (AtSleepEnter, init_state) ls c ->
  count_events is_pulse_high (trace (snd c)) = count_INT0 ls.
Proof.
  intros Hex.
  assert (Hgen : forall c0 ls0 c1, exec c0 ls0 c1 -> wf_state (snd c0) ->
                   count_events is_pulse_high (trace (snd c1)) =
                   (count_events is_pulse_high (trace (snd c0)) + count_INT0 ls0)%nat).
  { induction 1 as [c0 | c0 l c1 ls0 c2 Hstep _ IH]; intros Hwf.
    - simpl. lia.
    - rewrite IH by (eapply step_wf; eassumption).
      rewrite (step_pulses _ _ _ Hstep Hwf).
      destruct l as [[| pind |]| r]; simpl; lia. }
  rewrite (Hgen _ _ _ Hex wf_init_state). reflexivity.
Qed.

Lemma pulse_output_count_witness :
  count_events is_pulse_high (trace (ISR_INT0 (checkevent (ISR_INT0 init_state)))) = 2%nat.
Proof.
  refine (pulse_output_count
            [LCall Rsleep_cpu; LIrq IrqINT0; LCall Rcheckevent; LIrq IrqINT0]
            (AtReport, ISR_INT0 (checkevent (ISR_INT0 init_state))) _).
  eapply exec_cons; [apply step_sleep|].
  eapply exec_cons; [apply (step_wake IrqINT0)|].
  eapply exec_cons; [apply step_check1|].
  eapply exec_cons; [apply (step_irq AtReport IrqINT0); discriminate|].
  apply exec_nil.
Defined.

Lemma feedback_ISR_INT0 s :
  count_events is_feedback_start (trace (ISR_INT0 s)) =
  count_events is_feedback_start (trace s).
Proof.
  unfold ISR_INT0. destruct (ld count s <? UINT64_MAX);
    cbn [store delay_us trace]; rewrite !count_events_app;
    unfold count_events; cbn [List.filter is_feedback_start length];
    change (wrap eventflag 1 =? 0) with false; cbn [length]; lia.
Qed.

Lemma feedback_ISR_INT1 pind s :
  count_events is_feedback_start (trace (ISR_INT1 pind s)) =
  count_events is_feedback_start (trace s).
Proof.
  unfold ISR_INT1. destruct (Z.land (pind 25000) (_BV PD3) =? 0);
    cbn [store delay_ms delay_us trace]; rewrite !count_events_app;
    unfold count_events; cbn [List.filter is_feedback_start length]; lia.
Qed.

Lemma feedback_checkevent s :
  count_events is_feedback_start (trace (checkevent s)) =
  (count_events is_feedback_start (trace s)
   + (if (ld eventflag s =? 0)%Z then 0 else 1))%nat.
Proof.
  destruct (Z.eqb_spec (ld eventflag s) 0) as [Hf|Hf].
  - unfold checkevent. rewrite Hf. cbn [Z.eqb negb]. lia.
  - rewrite (checkevent_active s Hf). cbv zeta.
    destruct (Z.testbit (ld feedback_mode s) 0);
      destruct (Z.testbit (ld feedback_mode s) 1);
      cbn [store delay_ms delay_us trace]; rewrite !count_events_app;
      unfold count_events; cbn [List.filter is_feedback_start length];
      change (wrap eventflag 0 =? 0) with true; cbn [length]; lia.
Qed.

Lemma step_feedback c l c' n :
  step c l c' -> wf_state (snd c) ->
  (count_events is_feedback_start (trace (snd c))
   + (if (ld eventflag (snd c) =? 0)%Z then 0 else 1) <= n)%nat ->
  (count_events is_feedback_start (trace (snd c'))
   + (if (ld eventflag (snd c') =? 0)%Z then 0 else 1) <= n + count_INT0 [l])%nat.
Proof.
  intros Hstep Hwf Hn.
  assert (Hirq : forall i s,
             (count_events is_feedback_start (trace s)
              + (if (ld eventflag s =? 0)%Z then 0 else 1) <= n)%nat ->
             (count_events is_feedback_start (trace (run_isr i s))
              + (if (ld eventflag (run_isr i s) =? 0)%Z then 0 else 1)
              <= n + count_INT0 [LIrq i])%nat).
  { intros i s Hs. destruct i; cbn [run_isr count_INT0].
    - rewrite feedback_ISR_INT0.
      destruct (ld eventflag (ISR_INT0 s) =? 0); destruct (ld eventflag s =? 0); lia.
    - rewrite feedback_ISR_INT1, (ISR_INT1_ld _ eventflag) by congruence. lia.
    - unfold ISR_TIMER1_COMPA. rewrite ld_store_other by congruence.
      cbn [store trace]. rewrite count_events_app.
      unfold count_events at 2. cbn [List.filter is_feedback_start length]. lia. }
  destruct Hstep as [s | i s | s | s s' Hrep | s | p i s Hp]; cbn [snd] in *;
    try (apply Hirq; exact Hn); cbn [count_INT0]; rewrite ?Nat.add_0_r.
  - exact Hn.
  - rewrite feedback_checkevent, checkevent_flag. cbn [Z.eqb]. lia.
  - rewrite (count_events_sendreport is_feedback_start s s'); try assumption.
    + rewrite (sendreport_ld eventflag _ _ Hrep) by congruence. exact Hn.
    + intros l v H1 H2. destruct l; try reflexivity; contradiction.
  - rewrite feedback_checkevent, checkevent_flag. cbn [Z.eqb]. lia.
Qed.

(** X17. Feedback never happens without a pulse: over any run from startup the
    actuator has started at most as many feedback cycles as detector
    interrupts were taken, counting a pending event flag as one; pulses
    that arrive while the flag is already set share one cycle. *)
Theorem feedback_bounded_by_pulses (ls : list label) (c : config) :
  exec (AtSleepEnter, init_state) ls c ->
  (count_events is_feedback_start (trace (snd c))
   + (if (ld eventflag (snd c) =? 0)%Z then 0 else 1) <= count_INT0 ls)%nat.
Proof.
  intros Hex.
  assert (Hgen : forall c0 ls0 c1, exec c0 ls0 c1 -> forall n, wf_state (snd c0) ->
            (count_events is_feedback_start (trace (snd c0))
             + (if (ld eventflag (snd c0) =? 0)%Z then 0 else 1) <= n)%nat ->
            (count_events is_feedback_start (trace (snd c1))
             + (if (ld eventflag (snd c1) =? 0)%Z then 0 else 1)
             <= n + count_INT0 ls0)%nat).
  { induction 1 as [c0 | c0 l c1 ls0 c2 Hstep _ IH]; intros n Hwf Hn.
    - simpl. lia.
    - pose proof (step_feedback _ _ _ n Hstep Hwf Hn) as H1.
      pose proof (IH _ (step_wf _ _ _ Hstep Hwf) H1) as H2.
      replace (count_INT0 (l :: ls0)) with (count_INT0 [l] + count_INT0 ls0)%nat
        by (destruct l as [[| pind |]| r]; reflexivity).
      lia. }
  apply (Hgen _ _ _ Hex 0%nat wf_init_state). vm_compute. lia.
Qed.

Lemma feedback_bounded_by_pulses_witness :
  (count_events is_feedback_start
     (trace (checkevent (ISR_INT0 (ISR_INT0 init_state))))
   + (if (ld eventflag (checkevent (ISR_INT0 (ISR_INT0 init_state))) =? 0)%Z
      then 0 else 1) <= 2)%nat.
Proof.
  refine (feedback_bounded_by_pulses
            [LCall Rsleep_cpu; LIrq IrqINT0; LIrq IrqINT0; LCall Rcheckevent]
            (AtReport, checkevent (ISR_INT0 (ISR_INT0 init_state))) _).
  eapply exec_cons; [apply step_sleep|].
  eapply exec_cons; [apply (step_wake IrqINT0)|].
  eapply exec_cons; [apply (step_irq AtCheck1 IrqINT0); discriminate|].
  eapply exec_cons; [apply step_check1|].
  apply exec_nil.
Defined.

(** ** Flags between calls *)

Lemma step_flag_stays_clear c l c' :
  step c l c' -> count_INT0 [l] = 0%nat ->
  ld eventflag (snd c) = 0 -> ld eventflag (snd c') = 0.
Proof.
  intros Hstep Hno Hf.
  assert (Hirq : forall i s, count_INT0 [LIrq i] = 0%nat -> ld eventflag s = 0 ->
                             ld eventflag (run_isr i s) = 0).
  { intros i s Hi Hs. destruct i; cbn [run_isr count_INT0] in *.
    - discriminate.
    - rewrite ISR_INT1_ld by congruence. exact Hs.
    - unfold ISR_TIMER1_COMPA. rewrite ld_store_other by congruence. exact Hs. }
  destruct Hstep as [s | i s | s | s s' Hrep | s | p i s Hp]; cbn [snd] in *.
  - exact Hf.
  - apply Hirq; assumption.
  - apply checkevent_flag.
  - rewrite (sendreport_ld eventflag _ _ Hrep) by congruence. exact Hf.
  - apply checkevent_flag.
  - apply Hirq; assumption.
Qed.

Lemma step_no_feedback c l c' :
  step c l c' -> wf_state (snd c) -> count_INT0 [l] = 0%nat ->
  ld eventflag (snd c) = 0 ->
  count_events is_feedback_start (trace (snd c')) =
  count_events is_feedback_start (trace (snd c)).
Proof.
  intros Hstep Hwf Hno Hf.
  assert (Hirq : forall i s, count_INT0 [LIrq i] = 0%nat ->
             count_events is_feedback_start (trace (run_isr i s)) =
             count_events is_feedback_start (trace s)).
  { intros i s Hi. destruct i; cbn [run_isr count_INT0] in *.
    - discriminate.
    - apply feedback_ISR_INT1.
    - unfold ISR_TIMER1_COMPA. cbn [store trace]. rewrite count_events_app.
      unfold count_events at 2. cbn [List.filter is_feedback_start length]. lia. }
  destruct Hstep as [s | i s | s | s s' Hrep | s | p i s Hp]; cbn [snd] in *.
  - reflexivity.
  - apply Hirq; assumption.
  - rewrite feedback_checkevent, Hf. cbn [Z.eqb]. lia.
  - apply (count_events_sendreport is_feedback_start s s'); try assumption.
    intros l v H1 H2. destruct l; try reflexivity; contradiction.
  - rewrite feedback_checkevent, Hf. cbn [Z.eqb]. lia.
  - apply Hirq; assumption.
Qed.

Lemma count_INT0_cons l ls :
  count_INT0 (l :: ls) = (count_INT0 [l] + count_INT0 ls)%nat.
Proof. destruct l as [[| pind |]| r]; reflexivity. Qed.

Lemma count_ticks_cons l ls :
  count_ticks (l :: ls) = (count_ticks [l] + count_ticks ls)%nat.
Proof. destruct l as [[| pind |]| r]; reflexivity. Qed.

Lemma exec_no_pulse c ls c' :
  exec c ls c' -> wf_state (snd c) -> count_INT0 ls = 0%nat ->
  ld eventflag (snd c) = 0 ->
  ld eventflag (snd c') = 0 /\
  count_events is_feedback_start (trace (snd c')) =
  count_events is_feedback_start (trace (snd c)).
Proof.
  induction 1 as [c | c l c1 ls c2 Hstep _ IH]; intros Hwf Hno Hf.
  - split; [exact Hf | reflexivity].
  - rewrite count_INT0_cons in Hno.
    assert (Hl : count_INT0 [l] = 0%nat) by lia.
    assert (Hls : count_INT0 ls = 0%nat) by lia.
    destruct (IH (step_wf _ _ _ Hstep Hwf) Hls
                (step_flag_stays_clear _ _ _ Hstep Hl Hf)) as [H1 H2].
    split; [exact H1|]. rewrite H2. apply (step_no_feedback _ _ _ Hstep Hwf Hl Hf).
Qed.

(** X8. After a call of [checkevent] that ran without a detector
    interrupt landing inside it, and for as long as no detector interrupt
    is taken afterwards, whatever else runs (button and timer handlers,
    the reporter, further calls of [checkevent]): the event flag stays
    clear, no further feedback cycle starts, and a call of [checkevent]
    changes nothing.  The second call of the loop body therefore acts only
    on a pulse that arrived since the first. *)
Theorem no_pulse_no_feedback (p : pc) (s : state) (ls : list label) (c' : config) :
  wf_state s ->
  exec (p, checkevent s) ls c' ->
  count_INT0 ls = 0%nat ->
  ld eventflag (snd c') = 0 /\
  checkevent (snd c') = snd c' /\
  count_events is_feedback_start (trace (snd c')) =
  count_events is_feedback_start (trace (checkevent s)).
Proof.
  intros Hwf Hex Hno.
  destruct (exec_no_pulse _ _ _ Hex (wf_checkevent s Hwf) Hno (checkevent_flag s))
    as [Hf Hcnt].
  split; [exact Hf|]. split; [|exact Hcnt].
  unfold checkevent. rewrite Hf. reflexivity.
Qed.

Lemma no_pulse_no_feedback_witness :
  checkevent (ISR_TIMER1_COMPA (checkevent (ISR_INT0 init_state))) =
  ISR_TIMER1_COMPA (checkevent (ISR_INT0 init_state)).
Proof.
  refine (proj1 (proj2 (no_pulse_no_feedback AtReport (ISR_INT0 init_state)
                          [LIrq IrqTIMER1]
                          (AtReport, ISR_TIMER1_COMPA (checkevent (ISR_INT0 init_state)))
                          _ _ _))).
  - apply wf_ISR_INT0. apply wf_init_state.
  - eapply exec_cons; [apply (step_irq AtReport IrqTIMER1); discriminate|].
    apply exec_nil.
  - reflexivity.
Defined.

Lemma step_no_tick c l c' :
  step c l c' -> wf_state (snd c) -> count_ticks [l] = 0%nat ->
  ld tick (snd c) = 0 ->
  ld tick (snd c') = 0 /\ uart_tx (trace (snd c')) = uart_tx (trace (snd c)).
Proof.
  intros Hstep Hwf Hno Ht.
  assert (Hirq : forall i s, count_ticks [LIrq i] = 0%nat -> ld tick s = 0 ->
                             ld tick (run_isr i s) = 0 /\
                             uart_tx (trace (run_isr i s)) = uart_tx (trace s)).
  { intros i s Hi Hs. split; [|apply uart_tx_run_isr].
    destruct i; cbn [run_isr count_ticks] in *.
    - rewrite ISR_INT0_ld by congruence. exact Hs.
    - rewrite ISR_INT1_ld by congruence. exact Hs.
    - discriminate. }
  destruct Hstep as [s | i s | s | s s' Hrep | s | p i s Hp]; cbn [snd] in *.
  - split; [exact Ht | reflexivity].
  - apply Hirq; assumption.
  - rewrite (checkevent_ld tick) by congruence. split; [exact Ht|].
    apply uart_tx_checkevent.
  - split; [apply (sendreport_tick _ _ Hrep)|].
    rewrite (uart_tx_sendreport s s' Hwf Hrep), Ht. cbn [Z.eqb]. apply app_nil_r.
  - rewrite (checkevent_ld tick) by congruence. split; [exact Ht|].
    apply uart_tx_checkevent.
  - apply Hirq; assumption.
Qed.

Lemma exec_no_tick c ls c' :
  exec c ls c' -> wf_state (snd c) -> count_ticks ls = 0%nat ->
  ld tick (snd c) = 0 ->
  ld tick (snd c') = 0 /\ uart_tx (trace (snd c')) = uart_tx (trace (snd c)).
Proof.
  induction 1 as [c | c l c1 ls c2 Hstep _ IH]; intros Hwf Hno Ht.
  - split; [exact Ht | reflexivity].
  - rewrite count_ticks_cons in Hno.
    assert (Hl : count_ticks [l] = 0%nat) by lia.
    assert (Hls : count_ticks ls = 0%nat) by lia.
    destruct (step_no_tick _ _ _ Hstep Hwf Hl Ht) as [Ht1 Htx1].
    destruct (IH (step_wf _ _ _ Hstep Hwf) Hls Ht1) as [H1 H2].
    split; [exact H1|]. rewrite H2. exact Htx1.
Qed.

(** X9. After a call of [sendreport] that ran without a timer interrupt
    landing inside it, and for as long as no timer interrupt is taken
    afterwards, whatever else runs: [tick] stays clear, nothing more is
    put on the serial line, and a call of [sendreport] returns the state
    it was given. *)
Theorem no_tick_no_report (p : pc) (s s' : state) (ls : list label) (c' : config) :
  wf_state s ->
  sendreport s = Some s' ->
  exec (p, s') ls c' ->
  count_ticks ls = 0%nat ->
  ld tick (snd c') = 0 /\
  sendreport (snd c') = Some (snd c') /\
  uart_tx (trace (snd c')) = uart_tx (trace s').
Proof.
  intros Hwf Hrep Hex Hno.
  assert (Hwf' : wf_state s').
  { destruct (sendreport_wf s Hwf) as [s2 [Heq Hs2]]. congruence. }
  destruct (exec_no_tick _ _ _ Hex Hwf' Hno (sendreport_tick _ _ Hrep)) as [Ht Htx].
  split; [exact Ht|]. split; [|exact Htx].
  unfold sendreport. rewrite Ht. reflexivity.
Qed.

Lemma no_tick_no_report_witness :
  exists s',
    sendreport (ISR_TIMER1_COMPA init_state) = Some s' /\
    sendreport (ISR_INT0 (checkevent s')) = Some (ISR_INT0 (checkevent s')) /\
    uart_tx (trace (ISR_INT0 (checkevent s'))) = uart_tx (trace s').
Proof.
  destruct (sendreport (ISR_TIMER1_COMPA init_state)) as [s'|] eqn:Hrep;
    [|vm_compute in Hrep; discriminate].
  exists s'. split; [reflexivity|].
  refine (proj2 (no_tick_no_report AtCheck2 (ISR_TIMER1_COMPA init_state) s'
                   [LCall Rcheckevent; LIrq IrqINT0]
                   (AtSleepEnter, ISR_INT0 (checkevent s')) _ Hrep _ _)).
  - apply (wf_run_isr IrqTIMER1). apply wf_init_state.
  - eapply exec_cons; [apply step_check2|].
    eapply exec_cons; [apply (step_irq AtSleepEnter IrqINT0); discriminate|].
    apply exec_nil.
  - reflexivity.
Defined.

(** ** Main loop: order and effect of the calls *)








